(** * rvcs: snapshot, merge and publish, as programs over their collaborators

    The three Go packages under verification ([snapshot], [merge] and
    [publish]) do very little computation of their own: they sequence calls
    to a [Storage] implementation, to the operating system and to helper
    processes, and decide what to do next from the answers.  The embedding
    keeps exactly that shape.  Every function of the source becomes a
    program in a small free monad whose visible steps are the calls the Go
    code makes; a handler gives the answers, and running a program against a
    handler yields the returned value, the final world and the trace of
    calls with their answers.  Theorems quantify over every handler, so they
    hold for every storage backend, file system and helper. *)

From stdpp Require Import gmap strings list sorting.
From Stdlib Require Import ZArith Ascii String Lia.

Local Open Scope Z_scope.

(** ** Programs, handlers and traces *)

Section Programs.
Context {E : Type -> Type}.

Inductive Prog (A : Type) : Type :=
| Ret (a : A)
| Vis {X : Type} (e : E X) (k : X -> Prog A).

Global Arguments Ret {A} a.
Global Arguments Vis {A X} e k.

Fixpoint bind {A B : Type} (m : Prog A) (f : A -> Prog B) : Prog B :=
  match m with
  | Ret a => f a
  | Vis e k => Vis e (fun x => bind (k x) f)
  end.

Definition call {X : Type} (e : E X) : Prog X := Vis e Ret.

(** One entry of a trace: a call together with the answer it got. *)
Inductive Entry : Type :=
| Ent {X : Type} (e : E X) (x : X).

Definition Handler (W : Type) : Type := forall X : Type, E X -> W -> X * W.

Fixpoint run {W A : Type} (h : Handler W) (m : Prog A) (w : W)
  : A * W * list Entry :=
  match m with
  | Ret a => (a, w, [])
  | Vis e k =>
      let '(x, w1) := h _ e w in
      let '(a, w2, t) := run h (k x) w1 in
      (a, w2, Ent e x :: t)
  end.

(** The value returned by a run, and its trace. *)
Definition result_of {W A : Type} (r : A * W * list Entry) : A := r.1.1.
Definition trace_of {W A : Type} (r : A * W * list Entry) : list Entry := r.2.

(** The answers selected by [f] from a trace, in order. *)
Fixpoint answers {B : Type} (f : Entry -> option B) (t : list Entry) : list B :=
  match t with
  | [] => []
  | en :: rest =>
      match f en with
      | Some b => b :: answers f rest
      | None => answers f rest
      end
  end.

(** A program that, whatever it is answered, never makes a call whose
    entry the test [bad] accepts. *)
Fixpoint avoids {A : Type} (bad : Entry -> bool) (m : Prog A) : Prop :=
  match m with
  | Ret _ => True
  | Vis e k => forall x, bad (Ent e x) = false /\ avoids bad (k x)
  end.

End Programs.

Global Arguments Prog : clear implicits.
Global Arguments Entry : clear implicits.
Global Arguments Handler : clear implicits.

Declare Scope prog_scope.
Delimit Scope prog_scope with prog.
Notation "'let*' p ':=' m 'in' k" := (bind m (fun p => k))
  (at level 10, p pattern, m at level 100, k at level 200) : prog_scope.
Local Open Scope prog_scope.

(** ** Values shared by the three packages *)

Abbreviation Path := string.

(** Modelled from the spec: the [Hash] type of the snapshot package is not
    among the sources.  A hash has the form <algo>:<hex>, two hashes are
    equal iff both components match, and the null value ([None] here, a nil
    pointer in Go) means that there is no such object. *)
Record Hash : Type := mkHash { function : string; hexContents : string }.

Global Instance Hash_eq_dec : EqDecision Hash.
Proof. solve_decision. Defined.

(** Modelled from the spec: [Hash.Equal], on pointers that may be nil; two
    hashes are equal iff both components match, and nil equals only nil. *)
Definition Hash_Equal (h other : option Hash) : bool :=
  match h, other with
  | None, None => true
  | Some a, Some b =>
      bool_decide (function a = function b) && bool_decide (hexContents a = hexContents b)
  | _, _ => false
  end.

(** Modelled from the spec: [Hash.String], the textual form <algo>:<hex>.
    The sources apply it to a hash that may be nil only inside error
    messages; nil prints as nothing here. *)
Definition Hash_String (h : option Hash) : string :=
  match h with
  | None => ""
  | Some a => function a +:+ ":" +:+ hexContents a
  end.

(** The snapshot record: [Contents] and every parent are pointers in Go. *)
Record File : Type := mkFile {
  Mode : string;
  Contents : option Hash;
  Parents : list (option Hash)
}.

Global Instance File_eq_dec : EqDecision File.
Proof. solve_decision. Defined.

(** Comparison of a Go pointer or interface value with nil. *)
Definition isNil {A : Type} (x : option A) : bool :=
  match x with
  | Some _ => false
  | None => true
  end.

Definition notNil {A : Type} (x : option A) : bool := negb (isNil x).

(** A Go [error] value: its message and whether [os.IsNotExist] holds of it. *)
Record error : Type := mkError { Error : string; notExist : bool }.

Global Instance error_eq_dec : EqDecision error.
Proof. solve_decision. Defined.

(** [os.IsNotExist]: false of the nil error. *)
Definition IsNotExist (err : option error) : bool :=
  match err with
  | Some e => notExist e
  | None => false
  end.

(** The double quote character, and the %q verb of package fmt on text
    without characters that need escaping other than quote and backslash. *)
Definition dq : string := String (ascii_of_nat 34) EmptyString.

Fixpoint escape (s : string) : string :=
  match s with
  | EmptyString => EmptyString
  | String c rest =>
      if bool_decide (c = ascii_of_nat 34) || bool_decide (c = ascii_of_nat 92)
      then String (ascii_of_nat 92) (String c (escape rest))
      else String c (escape rest)
  end.

Definition quote (s : string) : string := dq +:+ escape s +:+ dq.

(** [fmt.Errorf] never yields an error that [os.IsNotExist] recognises (the
    sources use the %v verb, which does not wrap). *)
Definition Errorf (msg : string) : error := {| Error := msg; notExist := false |}.

(** %v of an error, as package fmt prints it. *)
Definition errv (err : option error) : string :=
  match err with
  | Some e => Error e
  | None => "<nil>"
  end.

(** Modelled from the spec: the [Tree] type of the snapshot package is not
    among the sources.  A tree maps a single-component name to the hash of a
    child snapshot; its canonical serialization has one line per entry of
    the form <name>\t<child_hash>\n, entries sorted ascending by name. *)
Abbreviation Tree := (gmap string Hash).

(** The order of the lines of a serialized tree: by name, bytewise. *)
Definition entry_le (a b : string * Hash) : Prop := String.leb a.1 b.1 = true.

Global Instance entry_le_dec (a b : string * Hash) : Decision (entry_le a b).
Proof. unfold entry_le. apply _. Defined.

Definition tab : string := String (ascii_of_nat 9) EmptyString.
Definition newline : string := String (ascii_of_nat 10) EmptyString.

(** Modelled from the spec: one line of a serialized tree,
    <name>\t<child_hash>\n. *)
Definition Tree_line (e : string * Hash) : string :=
  e.1 +:+ tab +:+ Hash_String (Some e.2) +:+ newline.

(** Modelled from the spec: [Tree.String], the lines of the entries sorted
    ascending by name. *)
Definition Tree_String (t : Tree) : string :=
  foldr (fun e acc => Tree_line e +:+ acc) EmptyString (merge_sort entry_le (map_to_list t)).

(** Modelled from the spec: [File.IsDir] is not among the sources.  The
    mode is a textual descriptor that includes the bits for directory and
    for symbolic link, which [fs.FileMode] prints as the letters d and L in
    front of the permissions.  A nil File is not a directory. *)
Definition File_IsDir (f : option File) : bool :=
  match f with
  | Some f => String.prefix "d" (Mode f)
  | None => false
  end.

(** Modelled from the spec: [File.IsLink], as [File_IsDir] with the letter
    of a symbolic link. *)
Definition File_IsLink (f : option File) : bool :=
  match f with
  | Some f => String.prefix "L" (Mode f)
  | None => false
  end.

(** Modelled from the spec: [File.String], the canonical serialization of
    a File: its mode, its contents and its parents in the order given, one
    per line, each line ended by a newline. *)
Definition File_String (f : File) : string :=
  Mode f +:+ newline +:+ Hash_String (Contents f) +:+ newline
  +:+ foldr (fun p acc => Hash_String p +:+ newline +:+ acc) EmptyString (Parents f).

(** Modelled from the spec: [Path.Join] concatenates name components
    using a forward slash. *)
Definition Path_Join (p name : Path) : Path := p +:+ "/" +:+ name.

(** How an activation of a recursive function of the source can end: it
    returns, it dereferences a nil pointer, or the fuel that bounds the
    depth of the recursion here is spent. *)
Inductive Outcome (A : Type) : Type :=
| Done (a : A)
| Panic
| OutOfFuel.
Arguments Done {A} a.
Arguments Panic {A}.
Arguments OutOfFuel {A}.

(** ** Package snapshot *)

Module Snapshot.

(** [fs.FileMode] is a 32-bit set of flags; [String] prints the letters of
    the type bits that are set (or a dash) and then the nine permission
    bits, as the Go standard library does. *)
Definition ModeDir : Z := Z.shiftl 1 31.
Definition ModeSymlink : Z := Z.shiftl 1 27.

Fixpoint typeLetters (letters : string) (bit : Z) (m : Z) : string :=
  match letters with
  | EmptyString => EmptyString
  | String c rest =>
      if Z.testbit m bit
      then String c (typeLetters rest (bit - 1) m)
      else typeLetters rest (bit - 1) m
  end.

Fixpoint permLetters (letters : string) (bit : Z) (m : Z) : string :=
  match letters with
  | EmptyString => EmptyString
  | String c rest =>
      String (if Z.testbit m bit then c else "-"%char) (permLetters rest (bit - 1) m)
  end.

Definition FileMode_String (m : Z) : string :=
  let t := typeLetters "dalTLDpSugct?" 31 m in
  (if bool_decide (t = EmptyString) then "-" else t) +:+ permLetters "rwxrwxrwx" 8 m.

(** What the code reads from an [os.FileInfo]. *)
Record FileInfo : Type := mkFileInfo {
  fi_Size : Z;
  fi_Mode : Z;
  fi_ModTime : Z
}.

Definition fi_IsDir (info : FileInfo) : bool :=
  negb (Z.land (fi_Mode info) ModeDir =? 0).

(** [time.Time] as nanoseconds since the zero time. *)
Definition Second : Z := 1000000000.

Definition Truncate (t d : Z) : Z :=
  if d <=? 0 then t else t - Z.modulo t d.

Definition Time_Add (t d : Z) : Z := t + d.
Definition Time_Equal (t u : Z) : bool := t =? u.
Definition Time_Before (t u : Z) : bool := t <? u.

(** An open [*os.File]. *)
Abbreviation Handle := Z.

(** The [io.Reader] handed to [StoreObject]: the open file itself, or a
    reader over bytes held in memory. *)
Inductive Reader : Type :=
| FromFile (f : Handle)
| FromBytes (b : string).

(** A call of the standard library that returns a value and an error
    returns a usable value exactly when the error is nil. *)
Inductive result (A : Type) : Type :=
| Ok (a : A)
| Failed (e : error).
Arguments Ok {A} a.
Arguments Failed {A} e.

(** The calls the package makes: the six methods of the [Storage]
    interface, then the clock and the file system. *)
Inductive Event : Type -> Type :=
| StoreObject (size : Z) (r : Reader) : Event (option Hash * option error)
| Exclude (p : Path) : Event bool
| FindSnapshot (p : Path) : Event (option Hash * option File * option error)
| StoreSnapshot (p : Path) (f : File) : Event (option Hash * option error)
| CachePathInfo (p : Path) (info : FileInfo) : Event (option error)
| PathInfoMatchesCache (p : Path) (info : FileInfo) : Event bool
| timeNow : Event Z
| Lstat (p : Path) : Event (result FileInfo)
| Open (p : Path) : Event (result Handle)
| Stat (f : Handle) : Event (result FileInfo)
| ReadDir (f : Handle) (n : Z) : Event (list string * option error)
| Readlink (p : Path) : Event (string * option error)
| Close (f : Handle) : Event (option error).

Abbreviation M := (Prog Event).

(** The three values every snapshot function returns. *)
Abbreviation Snap := (option Hash * option File * option error)%type.

Definition snapshotFileMetadata (p : Path) (info : FileInfo) (contentsHash : option Hash)
  : M Snap :=
  let modeLine := FileMode_String (fi_Mode info) in
  let* (prevFileHash, prev, err) := call (FindSnapshot p) in
  if notNil err && negb (IsNotExist err) then
    Ret (None, None,
         Some (Errorf ("failure looking up the previous file snapshot: " +:+ errv err)))
  else if match prev with
          | Some pf => bool_decide (Mode pf = modeLine) && Hash_Equal (Contents pf) contentsHash
          | None => false
          end
  then
    (* The file is unchanged from the last snapshot... *)
    Ret (prevFileHash, prev, None)
  else
    let f := {| Contents := contentsHash;
                Mode := modeLine;
                Parents := match prev with Some _ => [prevFileHash] | None => [] end |} in
    let* (h, err) := call (StoreSnapshot p f) in
    if notNil err then
      Ret (None, None,
           Some (Errorf ("failure saving the latest file metadata for " +:+ quote p
                         +:+ ": " +:+ errv err)))
    else Ret (h, Some f, None).

Definition readCached (p : Path) (info : FileInfo) : M (option Hash * option File * bool) :=
  let* matches := call (PathInfoMatchesCache p info) in
  if negb matches then Ret (None, None, false)
  else
    let* (cachedHash, cachedFile, err) := call (FindSnapshot p) in
    if notNil err then Ret (None, None, false)
    else Ret (cachedHash, cachedFile, true).

(** The deferred closure of [snapshotRegularFile]; it runs on the way out,
    on the values the function is about to return. *)
Definition cacheDeferred (p : Path) (info : FileInfo) (startTimeSec : Z) (res : Snap)
  : M unit :=
  let '(h, _, err) := res in
  if notNil err || isNil h then
    (* We did not construct a snapshot, so nothing to cache *)
    Ret tt
  else
    let* latest := call (Lstat p) in
    match latest with
    | Failed _ => Ret tt
    | Ok latestInfo =>
        if negb (Time_Equal (fi_ModTime latestInfo) (fi_ModTime info)) then Ret tt
        else if negb (Time_Before (fi_ModTime latestInfo)
                                 (Time_Add startTimeSec (-1 * Second))) then Ret tt
        else
          let* _ := call (CachePathInfo p info) in
          Ret tt
    end.

Definition snapshotRegularFile (p : Path) (info : FileInfo) (contents : Handle) : M Snap :=
  let* now := call timeNow in
  let startTimeSec := Truncate now Second in
  let* (cachedHash, cachedFile, ok) := readCached p info in
  if ok then Ret (cachedHash, cachedFile, None)
  else
    let* res :=
      (let* (h, err) := call (StoreObject (fi_Size info) (FromFile contents)) in
       if notNil err then
         Ret (None, None, Some (Errorf ("failure storing an object: " +:+ errv err)))
       else snapshotFileMetadata p info h) in
    let* _ := cacheDeferred p info startTimeSec res in
    Ret res.

(** [filepath.Join] of a directory and the name of one of its entries. *)
Definition filepath_Join (dir name : string) : string :=
  if bool_decide (dir = "/") then dir +:+ name else dir +:+ "/" +:+ name.

(** The loop of [snapshotDirectory] over the entries that [ReadDir]
    returned.  [rec] is the recursive call of [Current]; it answers [None]
    when the model has no fuel left.  The loop ends with the tree of child
    hashes, or with the error the function returns at once. *)
Fixpoint snapshotChildren (rec : Path -> M (option Snap)) (p : Path)
    (entries : list string) (childHashes : Tree) : M (option (Tree + error)) :=
  match entries with
  | [] => Ret (Some (inl childHashes))
  | entry :: rest =>
      let childPath := filepath_Join p entry in
      let* r := rec childPath in
      match r with
      | None => Ret None
      | Some (childHash, _, err) =>
          if notNil err then
            Ret (Some (inr (Errorf ("failure hashing the child dir " +:+ quote childPath
                                    +:+ ": " +:+ errv err))))
          else
            snapshotChildren rec p rest
              (match childHash with
               | Some c => <[entry := c]> childHashes
               | None => childHashes
               end)
      end
  end.

Definition snapshotDirectory (rec : Path -> M (option Snap)) (p : Path) (info : FileInfo)
    (contents : Handle) : M (option Snap) :=
  let* (entries, err) := call (ReadDir contents 0) in
  if notNil err then
    Ret (Some (None, None,
               Some (Errorf ("failure reading the filesystem contents of the directory "
                             +:+ quote p +:+ ": " +:+ errv err))))
  else
    let* children := snapshotChildren rec p entries ∅ in
    match children with
    | None => Ret None
    | Some (inr e) => Ret (Some (None, None, Some e))
    | Some (inl childHashes) =>
        let contentsJson := Tree_String childHashes in
        (* the error of this call is assigned and never looked at *)
        let* (contentsHash, err) :=
          call (StoreObject (Z.of_nat (String.length contentsJson)) (FromBytes contentsJson)) in
        let* r := snapshotFileMetadata p info contentsHash in
        Ret (Some r)
    end.

Definition snapshotLink (p : Path) (info : FileInfo) : M Snap :=
  let* (target, err) := call (Readlink p) in
  if notNil err then
    Ret (None, None,
         Some (Errorf ("failure reading the link target for " +:+ quote p +:+ ": " +:+ errv err)))
  else
    let* (h, err) := call (StoreObject (Z.of_nat (String.length target)) (FromBytes target)) in
    if notNil err then
      Ret (None, None, Some (Errorf ("failure storing an object: " +:+ errv err)))
    else snapshotFileMetadata p info h.

(** One activation of [Current]; [rec] stands for the calls on children. *)
Definition Current_body (rec : Path -> M (option Snap)) (p : Path) : M (option Snap) :=
  let* excluded := call (Exclude p) in
  if excluded : bool then Ret (Some (None, None, None))
  else
    let* stat := call (Lstat p) in
    match stat with
    | Failed e =>
        if notExist e then Ret (Some (None, None, None))
        else Ret (Some (None, None,
                        Some (Errorf ("failure reading the file stat for " +:+ quote p
                                      +:+ ": " +:+ Error e))))
    | Ok stat =>
        if negb (Z.land (fi_Mode stat) ModeSymlink =? 0) then
          let* r := snapshotLink p stat in Ret (Some r)
        else
          let* opened := call (Open p) in
          match opened with
          | Failed e =>
              if notExist e then Ret (Some (None, None, None))
              else Ret (Some (None, None,
                              Some (Errorf ("failure reading the file " +:+ quote p
                                            +:+ ": " +:+ Error e))))
          | Ok contents =>
              let* r :=
                (let* info := call (Stat contents) in
                 match info with
                 | Failed e =>
                     Ret (Some (None, None,
                                Some (Errorf ("failure reading the filesystem metadata for "
                                              +:+ quote p +:+ ": " +:+ Error e))))
                 | Ok info =>
                     if fi_IsDir info then snapshotDirectory rec p info contents
                     else let* r := snapshotRegularFile p info contents in Ret (Some r)
                 end) in
              (* defer contents.Close() *)
              let* _ := call (Close contents) in
              Ret r
          end
    end.

(** [Current], with fuel for the depth of the directory tree: [None] is
    returned only when the fuel runs out. *)
Fixpoint Current (fuel : nat) (p : Path) : M (option Snap) :=
  Current_body
    (match fuel with
     | O => fun _ : Path => Ret None
     | S n => Current n
     end) p.

(** Recognisers of trace entries. *)
Definition is_StoreObject (en : Entry Event) : bool :=
  match en with
  | Ent (StoreObject _ _) _ => true
  | _ => false
  end.

(** The answers that the clock and [Lstat] gave in a trace. *)
Definition answer_timeNow (en : Entry Event) : option Z :=
  match en with
  | Ent e x =>
      match e in Event X return X -> option Z with
      | timeNow => fun now => Some now
      | _ => fun _ => None
      end x
  end.

Definition answer_Lstat (en : Entry Event) : option (result FileInfo) :=
  match en with
  | Ent e x =>
      match e in Event X return X -> option (result FileInfo) with
      | Lstat _ => fun r => Some r
      | _ => fun _ => None
      end x
  end.

(** A snapshot was constructed: a hash and no error. *)
Definition succeeded (res : Snap) : bool :=
  let '(h, _, err) := res in isNil err && notNil h.

Definition is_StoreSnapshot (en : Entry Event) : bool :=
  match en with
  | Ent (StoreSnapshot _ _) _ => true
  | _ => false
  end.

Definition is_CachePathInfo (en : Entry Event) : bool :=
  match en with
  | Ent (CachePathInfo _ _) _ => true
  | _ => false
  end.

(** The calls that matter to the cache-write guard. *)
Definition guard_call (en : Entry Event) : bool :=
  is_CachePathInfo en || notNil (answer_Lstat en) || notNil (answer_timeNow en).



(** A fixed environment for examples: every call is answered from the
    scenario, whatever happened before. *)
Record Scenario : Type := mkScenario {
  sc_now : Z;
  sc_lstat : Path -> result FileInfo;
  sc_stat : Handle -> result FileInfo;
  sc_entries : Handle -> list string;
  sc_matchesCache : Path -> bool;
  sc_find : Path -> option Hash * option File * option error;
  sc_storeObject : Reader -> option Hash * option error;
  sc_storeSnapshot : Path -> File -> option Hash * option error
}.

Definition scenario (s : Scenario) : Handler Event unit :=
  fun X e w =>
    match e in Event X return X * unit with
    | StoreObject _ r => (sc_storeObject s r, tt)
    | Exclude _ => (false, tt)
    | FindSnapshot p => (sc_find s p, tt)
    | StoreSnapshot p f => (sc_storeSnapshot s p f, tt)
    | CachePathInfo _ _ => (None, tt)
    | PathInfoMatchesCache p _ => (sc_matchesCache s p, tt)
    | timeNow => (sc_now s, tt)
    | Lstat p => (sc_lstat s p, tt)
    | Open p => (Ok 3, tt)
    | Stat f => (sc_stat s f, tt)
    | ReadDir f _ => (sc_entries s f, None, tt)
    | Readlink _ => (EmptyString, None, tt)
    | Close _ => (None, tt)
    end.

(** A regular file of 5 bytes with permissions 0644, last modified 9.5
    seconds after the zero time. *)
Definition info_f : FileInfo := {| fi_Size := 5; fi_Mode := 420; fi_ModTime := 9500000000 |}.

Definition hash_a : Hash := mkHash "sha256" "aa".
Definition hash_b : Hash := mkHash "sha256" "bb".
Definition hash_c : Hash := mkHash "sha256" "cc".

(** The previous snapshot of the file in the examples: same mode line,
    contents [hash_a]. *)
Definition file_prev : File :=
  {| Mode := "-rw-r--r--"; Contents := Some hash_a; Parents := [] |}.

(** A store that knows [file_prev] under [hash_b] as the latest snapshot of
    every path and answers [hash_c] to every write; the file system holds
    [info_f] everywhere and the clock shows 10.9 seconds. *)
Definition sc_known : Scenario :=
  {| sc_now := 10900000000;
     sc_lstat := fun _ => Ok info_f;
     sc_stat := fun _ => Ok info_f;
     sc_entries := fun _ => [];
     sc_matchesCache := fun _ => false;
     sc_find := fun _ => (Some hash_b, Some file_prev, None);
     sc_storeObject := fun _ => (Some hash_a, None);
     sc_storeSnapshot := fun _ _ => (Some hash_c, None) |}.

(** The same store and file, looked at when the clock shows 12 seconds. *)
Definition sc_later : Scenario :=
  {| sc_now := 12000000000;
     sc_lstat := sc_lstat sc_known;
     sc_stat := sc_stat sc_known;
     sc_entries := sc_entries sc_known;
     sc_matchesCache := sc_matchesCache sc_known;
     sc_find := sc_find sc_known;
     sc_storeObject := sc_storeObject sc_known;
     sc_storeSnapshot := sc_storeSnapshot sc_known |}.

(** A directory with permissions 0755. *)
Definition info_d : FileInfo :=
  {| fi_Size := 4096; fi_Mode := 2147484141; fi_ModTime := 9500000000 |}.

Definition io_error : error := {| Error := "input/output error"; notExist := false |}.
Definition not_found : error := {| Error := "file does not exist"; notExist := true |}.

(** An empty directory that has no snapshot yet, on a store whose object
    area cannot be written while its index can. *)
Definition sc_failing_store : Scenario :=
  {| sc_now := 10900000000;
     sc_lstat := fun _ => Ok info_d;
     sc_stat := fun _ => Ok info_d;
     sc_entries := fun _ => [];
     sc_matchesCache := fun _ => false;
     sc_find := fun _ => (None, None, Some not_found);
     sc_storeObject := fun _ => (None, Some io_error);
     sc_storeSnapshot := fun _ _ => (Some hash_c, None) |}.

End Snapshot.

(** ** Package merge *)

Module Merge.

(** The calls of [mergeWithBase]: the log and the storage, the helper-based
    merge of two regular files (a function of this package that is not
    among the sources), and the order in which the Go runtime hands out the
    keys of a map to a range loop. *)
Inductive Event : Type -> Type :=
| ReadLog (h : option Hash) (limit : Z) : Event (list (option Hash) * option error)
| ReadSnapshot (h : option Hash) : Event (option File * option error)
| ListDirectorySnapshotContents (h : option Hash) (f : option File)
    : Event (Tree * option error)
| StoreObject (size : Z) (contents : string) : Event (option Hash * option error)
| mergeWithHelper (subPath : Path) (mode : string) (base src dest : option Hash)
    : Event (option Hash * option error)
| mapRange (keys : gset Path) : Event (list Path).

Abbreviation M := (Prog Event).

(** What [mergeWithBase] returns. *)
Abbreviation Merged := (option Hash * option error)%type.

Definition IsAncestor (base h : option Hash) : M (bool * option error) :=
  if isNil base then
    (* The nil snapshot is an ancestor of all other snapshots. *)
    Ret (true, None)
  else
    let* (snapshotLog, err) := call (ReadLog h (-1)) in
    if notNil err then
      Ret (false, Some (Errorf ("failure reading the log for " +:+ quote (Hash_String h)
                                +:+ ": " +:+ errv err)))
    else Ret (existsb (fun e => Hash_Equal e base) snapshotLog, None).

Definition deletedError (subPath : Path) : error :=
  Errorf ("the nested snapshot under the path " +:+ quote subPath
          +:+ " was deleted in either the source or destination snapshot, so the two snapshots have to be manually merged").

Definition rolledBackError (side : string) (subPath : Path) : error :=
  Errorf ("nested changes under the path " +:+ quote subPath
          +:+ " were rolled back in the " +:+ side
          +:+ " snapshot, so the two snapshots have to be manually merged").

Definition readError (h : option Hash) (err : option error) : error :=
  Errorf ("failure reading the file snapshot for " +:+ quote (Hash_String h)
          +:+ ": " +:+ errv err).

Definition treeError (h : option Hash) (err : option error) : error :=
  Errorf ("failure reading the tree for the snapshot " +:+ quote (Hash_String h)
          +:+ ": " +:+ errv err).

Definition symlinkError (subPath : Path) : error :=
  Errorf ("one or both versions of the snapshot at " +:+ quote subPath
          +:+ " represent a symlink, so the two snapshots for that path have to be manually merged").

Definition modeMismatch (subPath : Path) (srcMode destMode : string) : string :=
  "file permissions for " +:+ quote subPath
  +:+ " do not match between versions; source mode line: " +:+ quote srcMode
  +:+ ", destination mode line " +:+ quote destMode
  +:+ ". Manually update the permissions for the source to match what you want for the merge result, and then re-run the merge with the option to force using the source permissions".

(** The loop over the names of both directories, in the order [ps] that the
    range statement produced. *)
Fixpoint mergeChildren
    (rec : Path -> option Hash -> option Hash -> option Hash -> M (Outcome Merged))
    (subPath : Path) (baseTree srcTree destTree : Tree)
    (ps : list Path) (mergedTree : Tree) (nestedErrors : list string)
  : M (Outcome (Tree * list string)) :=
  match ps with
  | [] => Ret (Done (mergedTree, nestedErrors))
  | p :: rest =>
      let childSubPath := Path_Join subPath p in
      let childBase := baseTree !! p in
      let childSrc := srcTree !! p in
      let childDest := destTree !! p in
      let* r := rec childSubPath childBase childSrc childDest in
      match r with
      | Done (mergedChild, err) =>
          mergeChildren rec subPath baseTree srcTree destTree rest
            (match mergedChild with
             | Some c => <[p := c]> mergedTree
             | None => mergedTree
             end)
            (match err with
             | Some e => nestedErrors ++ [Error e]
             | None => nestedErrors
             end)
      | Panic => Ret Panic
      | OutOfFuel => Ret OutOfFuel
      end
  end.

(** The end of the directory case: the joined errors, or the merged tree
    and the merged snapshot stored one after the other. *)
Definition storeMerged (src dest : option Hash) (srcMode : string)
    (mergedTree : Tree) (nestedErrors : list string) : M Merged :=
  if bool_decide (nestedErrors <> []) then
    Ret (None, Some (Errorf (String.concat newline nestedErrors)))
  else
    let contentsBytes := Tree_String mergedTree in
    let* (contentsHash, err) :=
      call (StoreObject (Z.of_nat (String.length contentsBytes)) contentsBytes) in
    if notNil err then
      Ret (None, Some (Errorf ("failure storing the contents of a merged tree: " +:+ errv err)))
    else
      let mergedFile := {| Mode := srcMode;
                           Contents := contentsHash;
                           Parents := [src; dest] |} in
      let fileBytes := File_String mergedFile in
      let* (h, err) := call (StoreObject (Z.of_nat (String.length fileBytes)) fileBytes) in
      if notNil err then
        Ret (None, Some (Errorf ("failure storing the merged snapshot: " +:+ errv err)))
      else Ret (h, None).

(** Both source and destination are directories. *)
Definition mergeDirectories
    (rec : Path -> option Hash -> option Hash -> option Hash -> M (Outcome Merged))
    (subPath : Path) (base src dest : option Hash)
    (baseFile srcFile destFile : option File) (forceKeepMode : bool)
  : M (Outcome Merged) :=
  let* (srcTree, err) := call (ListDirectorySnapshotContents src srcFile) in
  if notNil err then Ret (Done (None, Some (treeError src err)))
  else
    let* (destTree, err) := call (ListDirectorySnapshotContents dest destFile) in
    if notNil err then Ret (Done (None, Some (treeError dest err)))
    else
      let* (baseTree, err) :=
        (if File_IsDir baseFile
         then call (ListDirectorySnapshotContents base baseFile)
         else Ret (∅, None)) in
      if notNil err then Ret (Done (None, Some (treeError base err)))
      else
        let subpaths : gset Path := dom srcTree ∪ dom destTree in
        let* order := call (mapRange subpaths) in
        let* children :=
          mergeChildren rec subPath baseTree srcTree destTree order ∅ [] in
        match children, srcFile, destFile with
        | Done (mergedTree, nestedErrors), Some sf, Some df =>
            let nestedErrors :=
              if negb (bool_decide (Mode sf = Mode df)) && negb forceKeepMode
              then nestedErrors ++ [modeMismatch subPath (Mode sf) (Mode df)]
              else nestedErrors in
            let* r := storeMerged src dest (Mode sf) mergedTree nestedErrors in
            Ret (Done r)
        | Done _, _, _ => Ret Panic
        | Panic, _, _ => Ret Panic
        | OutOfFuel, _, _ => Ret OutOfFuel
        end.

(** One activation of [mergeWithBase]; [rec] stands for the calls on the
    children of two directories. *)
Definition mergeWithBase_body
    (rec : Path -> option Hash -> option Hash -> option Hash -> M (Outcome Merged))
    (subPath : Path) (base src dest : option Hash) (forceKeepMode : bool)
  : M (Outcome Merged) :=
  if Hash_Equal src dest then Ret (Done (src, None))
  else if Hash_Equal src base then Ret (Done (dest, None))
  else if Hash_Equal dest base then Ret (Done (src, None))
  else if isNil src || isNil dest then
    Ret (Done (None, Some (deletedError subPath)))
  else
    let* (isAncestor, err) := IsAncestor base src in
    if notNil err then Ret (Done (None, err))
    else if negb isAncestor then
      Ret (Done (None, Some (rolledBackError "source" subPath)))
    else
      let* (isAncestor, err) := IsAncestor base dest in
      if notNil err then Ret (Done (None, err))
      else if negb isAncestor then
        Ret (Done (None, Some (rolledBackError "destination" subPath)))
      else
        let* (srcFile, err) := call (ReadSnapshot src) in
        if notNil err then Ret (Done (None, Some (readError src err)))
        else
          let* (destFile, err) := call (ReadSnapshot dest) in
          if notNil err then Ret (Done (None, Some (readError dest err)))
          else
            let* (baseFile, err) :=
              (if notNil base
               then call (ReadSnapshot base)
               else Ret (None, None)) in
            if notNil err then Ret (Done (None, Some (readError base err)))
            else if File_IsLink srcFile || File_IsLink destFile then
              Ret (Done (None, Some (symlinkError subPath)))
            else if negb (File_IsDir srcFile && File_IsDir destFile) then
              match destFile with
              | Some df =>
                  let* r := call (mergeWithHelper subPath (Mode df) base src dest) in
                  Ret (Done r)
              | None => Ret Panic
              end
            else
              mergeDirectories rec subPath base src dest
                baseFile srcFile destFile forceKeepMode.

(** [mergeWithBase], with fuel for the depth of the merged trees. *)
Fixpoint mergeWithBase (fuel : nat) (subPath : Path) (base src dest : option Hash)
    (forceKeepMode : bool) : M (Outcome Merged) :=
  mergeWithBase_body
    (match fuel with
     | O => fun _ _ _ _ => Ret OutOfFuel
     | S n => fun childSubPath childBase childSrc childDest =>
                mergeWithBase n childSubPath childBase childSrc childDest forceKeepMode
     end)
    subPath base src dest forceKeepMode.

(** The recursive calls available to an activation with the given fuel. *)
Definition children_of (fuel : nat) (forceKeepMode : bool)
  : Path -> option Hash -> option Hash -> option Hash -> M (Outcome Merged) :=
  match fuel with
  | O => fun _ _ _ _ => Ret OutOfFuel
  | S n => fun childSubPath childBase childSrc childDest =>
             mergeWithBase n childSubPath childBase childSrc childDest forceKeepMode
  end.

(** The two writes that end a successful merge of two directories. *)
Definition store_tree (mergedTree : Tree) : Event (option Hash * option error) :=
  StoreObject (Z.of_nat (String.length (Tree_String mergedTree))) (Tree_String mergedTree).

Definition store_file (mergedFile : File) : Event (option Hash * option error) :=
  StoreObject (Z.of_nat (String.length (File_String mergedFile))) (File_String mergedFile).

(** Recognisers of trace entries, and the answers [ReadSnapshot] gave. *)
Definition is_mapRange {X : Type} (e : Event X) : bool :=
  match e with
  | mapRange _ => true
  | _ => false
  end.

Definition answer_ReadSnapshot (en : Entry Event) : option (option File * option error) :=
  match en with
  | Ent e x =>
      match e in Event X return X -> option (option File * option error) with
      | ReadSnapshot _ => fun r => Some r
      | _ => fun _ => None
      end x
  end.

Definition is_ReadSnapshot (en : Entry Event) : bool := notNil (answer_ReadSnapshot en).

(** A snapshot hash came back and no error. *)
Definition merged_ok (r : Outcome Merged) : Prop :=
  match r with
  | Done (_, None) => True
  | _ => False
  end.

(** Two orders in which a range loop may visit a set of names: sorted, and
    sorted backwards. *)
Definition name_le (a b : Path) : Prop := String.leb a b = true.

Global Instance name_le_dec (a b : Path) : Decision (name_le a b).
Proof. unfold name_le. apply _. Defined.

Definition sorted_order (keys : gset Path) : list Path := merge_sort name_le (elements keys).
Definition reverse_order (keys : gset Path) : list Path := reverse (sorted_order keys).

(** A fixed environment for examples: every call is answered by [ans],
    whatever happened before. *)
Definition fixed (ans : forall X : Type, Event X -> X) : Handler Event unit :=
  fun X e w => (ans X e, tt).

Definition hash_of (name : string) : Hash := mkHash "sha256" name.

Definition dir_file : File :=
  {| Mode := "drwxr-xr-x"; Contents := Some (hash_of "tree"); Parents := [] |}.

(** Two versions of a directory whose base holds the files a and b: the
    source changed both of them and the destination deleted both. *)
Definition conflict_answers (order : gset Path -> list Path) : forall X : Type, Event X -> X :=
  fun X e =>
    match e in Event X return X with
    | ReadLog h _ => ([h; Some (hash_of "base")], None)
    | ReadSnapshot _ => (Some dir_file, None)
    | ListDirectorySnapshotContents h _ =>
        (if bool_decide (h = Some (hash_of "src")) then
           <["a" := hash_of "a1"]> (<["b" := hash_of "b1"]> ∅)
         else if bool_decide (h = Some (hash_of "dest")) then ∅
         else <["a" := hash_of "a0"]> (<["b" := hash_of "b0"]> ∅),
         None)
    | StoreObject _ contents =>
        (Some (hash_of (if String.prefix "d" contents then "merged" else "tree")), None)
    | mergeWithHelper _ _ _ _ _ => (None, Some (Errorf "exit status 1"))
    | mapRange keys => order keys
    end.

(** The clean three-way merge: the source added the file c and the
    destination changed the file a. *)
Definition clean_answers (order : gset Path -> list Path) : forall X : Type, Event X -> X :=
  fun X e =>
    match e in Event X return X with
    | ReadLog h _ => ([h; Some (hash_of "base")], None)
    | ReadSnapshot _ => (Some dir_file, None)
    | ListDirectorySnapshotContents h _ =>
        (if bool_decide (h = Some (hash_of "src")) then
           <["a" := hash_of "a0"]> (<["b" := hash_of "b0"]> (<["c" := hash_of "c1"]> ∅))
         else if bool_decide (h = Some (hash_of "dest")) then
           <["a" := hash_of "a1"]> (<["b" := hash_of "b0"]> ∅)
         else <["a" := hash_of "a0"]> (<["b" := hash_of "b0"]> ∅),
         None)
    | StoreObject _ contents =>
        (Some (hash_of (if String.prefix "d" contents then "merged" else "tree")), None)
    | mergeWithHelper _ _ _ _ _ => (None, Some (Errorf "exit status 1"))
    | mapRange keys => order keys
    end.

(** Histories in which the snapshot [who] no longer descends from the base:
    its log holds only itself. *)
Definition rolled_back_answers (who : option Hash) : forall X : Type, Event X -> X :=
  fun X e =>
    match e in Event X return X with
    | ReadLog h _ =>
        (if bool_decide (h = who) then [h] else [h; Some (hash_of "base")], None)
    | ReadSnapshot _ => (Some dir_file, None)
    | ListDirectorySnapshotContents _ _ => (∅, None)
    | StoreObject _ _ => (Some (hash_of "stored"), None)
    | mergeWithHelper _ _ _ _ _ => (None, Some (Errorf "exit status 1"))
    | mapRange _ => []
    end.

Definition merged_tree : Tree :=
  <["a" := hash_of "a1"]> (<["b" := hash_of "b0"]> (<["c" := hash_of "c1"]> ∅)).

(** An environment whose storage and helper answer every call from the
    request alone, as [ans] says, and whose runtime hands out the keys of a
    map in some order, each key once. *)
Definition reproducible (ans : forall X : Type, Event X -> X) {W : Type}
    (h : Handler Event W) : Prop :=
  (forall (X : Type) (e : Event X) (w : W), is_mapRange e = false -> (h X e w).1 = ans X e)
  /\ (forall (keys : gset Path) (w : W), (h _ (mapRange keys) w).1 ≡ₚ elements keys).

(** A program whose result, when it is [good], is the same in every
    reproducible environment, whatever the order of the range loops. *)
Definition carries (ans : forall X : Type, Event X -> X) {A : Type} (good : A -> Prop)
    (m : M A) : Prop :=
  forall (W1 W2 : Type) (h1 : Handler Event W1) (h2 : Handler Event W2),
    reproducible ans h1 -> reproducible ans h2 ->
    forall (w1 : W1) (w2 : W2),
      good (result_of (run h1 m w1)) ->
      result_of (run h2 m w2) = result_of (run h1 m w1).

(** The loop over the children ended without a nested error. *)
Definition loop_ok (r : Outcome (Tree * list string)) : Prop :=
  match r with
  | Done (_, []) => True
  | _ => False
  end.

(** The conflicting merge, run with the children visited in both orders. *)
Definition conflict_run (order : gset Path -> list Path) : Outcome Merged :=
  result_of (run (fixed (conflict_answers order))
               (mergeWithBase 1 "/t/d" (Some (hash_of "base")) (Some (hash_of "src"))
                  (Some (hash_of "dest")) false) tt).

(** The clean merge, run with one level of recursion and the children
    visited in sorted order. *)
Definition clean_run : Outcome Merged * unit * list (Entry Event) :=
  run (fixed (clean_answers sorted_order))
      (mergeWithBase 1 "/t/d" (Some (hash_of "base")) (Some (hash_of "src"))
         (Some (hash_of "dest")) false) tt.

Definition clean_trace : list (Entry Event) := Eval vm_compute in trace_of clean_run.

End Merge.

(** ** Package publish *)

Module Publish.

(** Modelled from the spec: the [Identity] type of the snapshot package is
    not among the sources.  An identity is a string <namespace>::<content>;
    the namespace selects the helpers and the content is opaque. *)
Record Identity : Type := mkIdentity { Algorithm : string; Id_Contents : string }.

(** Modelled from the spec: [Identity.String], the full identity
    <namespace>::<content>; [Algorithm] is the namespace and [Id_Contents]
    the content, which the source reads with [id.Contents()]. *)
Definition Identity_String (id : Identity) : string :=
  Algorithm id +:+ "::" +:+ Id_Contents id.

(** What the code reads from [url.URL], [config.Mirror] and
    [config.Settings]. *)
Record URL : Type := mkURL { Scheme : string; Rest : string }.

Record Mirror : Type := mkMirror {
  Mirror_URL : option URL;
  HelperFlags : list string
}.

Record IdentitySetting : Type := mkIdentitySetting {
  Name : string;
  PullMirrors : list (option Mirror)
}.

Record Settings : Type := mkSettings {
  Identities : list IdentitySetting;
  AdditionalPullMirrors : list (option Mirror)
}.

(** [exec.Command]: the name of the program and its arguments. *)
Record Cmd : Type := Command { cmd_Name : string; cmd_Args : list string }.

(** The calls of the package: the identity index of the storage, [Verify]
    and [snapshot.ParseHash] (functions of this repository that are not
    among the sources), and the life of a helper process.  [Wait] is how
    [os/exec] reports the exit status of a started command. *)
Inductive Event : Type -> Type :=
| LatestSignatureForIdentity (id : Identity) : Event (option Hash * option error)
| UpdateSignatureForIdentity (id : Identity) (signature : option Hash) : Event (option error)
| Verify (id : Identity) (signature : option Hash) : Event (option Hash * option error)
| ParseHash (s : string) : Event (option Hash * option error)
| StdoutPipe (c : Cmd) : Event (option error)
| Start (c : Cmd) : Event (option error)
| ReadAll (c : Cmd) : Event (string * option error)
| Wait (c : Cmd) : Event (option error).

Abbreviation M := (Prog Event).

(** The three values [pullFromAndVerify] and [Pull] return. *)
Abbreviation Pulled := (option Hash * option Hash * option error)%type.

Section WithFormatting.

(** The %q rendering of a [*config.Mirror], which package config decides. *)
Variable Mirror_q : option Mirror -> string.

Definition pullFrom (m : option Mirror) (id : Identity) (prev : option Hash)
  : M (option Hash * option error) :=
  match m with
  | None => Ret (prev, None)
  | Some mirror =>
      match Mirror_URL mirror with
      | None => Ret (prev, None)
      | Some url =>
          let helperCommand := "rvcs-pull-" +:+ Scheme url in
          let args := HelperFlags mirror in
          let args := args ++ [Identity_String id] in
          let args := if notNil prev then args ++ [Hash_String prev] else args in
          let pullCmd := Command helperCommand args in
          let* err := call (StdoutPipe pullCmd) in
          if notNil err then
            Ret (None, Some (Errorf ("failure constructing the pull command for "
                                     +:+ quote helperCommand +:+ ": " +:+ errv err)))
          else
            let* err := call (Start pullCmd) in
            if notNil err then
              Ret (None, Some (Errorf ("failure running the pull helper "
                                       +:+ quote helperCommand +:+ ": " +:+ errv err)))
            else
              let* (outBytes, err) := call (ReadAll pullCmd) in
              if notNil err then
                Ret (None, Some (Errorf ("failure reading the stdout of the pull helper "
                                         +:+ quote helperCommand +:+ ": " +:+ errv err)))
              else
                let* (h, err) := call (ParseHash outBytes) in
                if notNil err then
                  Ret (None, Some (Errorf ("failure parsing the stdout of the pull helper "
                                           +:+ quote helperCommand +:+ ": " +:+ errv err)))
                else Ret (h, None)
      end
  end.

Definition pullError (id : Identity) (m : option Mirror) (err : option error) : error :=
  Errorf ("failure pulling the latest snapshot for " +:+ quote (Identity_String id)
          +:+ " from " +:+ Mirror_q m +:+ ": " +:+ errv err).

Definition pullFromAndVerify (m : option Mirror) (id : Identity)
    (prevSignature prevSigned : option Hash) : M Pulled :=
  let* (signature, err) := pullFrom m id prevSignature in
  if notNil err then Ret (None, None, Some (pullError id m err))
  else if Hash_Equal signature prevSignature then Ret (prevSignature, prevSigned, None)
  else
    let* (signed, err) := call (Verify id signature) in
    if notNil err then
      Ret (None, None,
           Some (Errorf ("failure verifying the signature for " +:+ quote (Identity_String id)
                         +:+ " from " +:+ Mirror_q m +:+ ": " +:+ errv err)))
    else Ret (signature, signed, None).

(** A loop over mirrors that returns from [Pull] at the first error. *)
Fixpoint pullMirrors (mirrors : list (option Mirror)) (id : Identity)
    (signature signed : option Hash) : M Pulled :=
  match mirrors with
  | [] => Ret (signature, signed, None)
  | mirror :: rest =>
      let* (signature, signed, err) := pullFromAndVerify mirror id signature signed in
      if notNil err then Ret (None, None, Some (pullError id mirror err))
      else pullMirrors rest id signature signed
  end.

(** The loop over [settings.Identities], with the loop over the pull
    mirrors of every setting whose name is that of the identity. *)
Fixpoint pullIdentities (idSettings : list IdentitySetting) (id : Identity)
    (signature signed : option Hash) : M Pulled :=
  match idSettings with
  | [] => Ret (signature, signed, None)
  | idSetting :: rest =>
      if bool_decide (Name idSetting = Identity_String id) then
        let* (signature, signed, err) :=
          pullMirrors (PullMirrors idSetting) id signature signed in
        if notNil err then Ret (None, None, err)
        else pullIdentities rest id signature signed
      else pullIdentities rest id signature signed
  end.

Definition Pull (settings : Settings) (id : Identity) : M Pulled :=
  let* (signature, err) := call (LatestSignatureForIdentity id) in
  if notNil err then
    Ret (None, None,
         Some (Errorf ("failure looking up the previous signature for "
                       +:+ quote (Identity_String id) +:+ ": " +:+ errv err)))
  else
    let* (signed, err) := call (Verify id signature) in
    if notNil err then
      Ret (None, None,
           Some (Errorf ("failure verifying the previous signature for "
                         +:+ quote (Identity_String id) +:+ ": " +:+ errv err)))
    else
      let* (signature, signed, err) :=
        pullIdentities (Identities settings) id signature signed in
      if notNil err then Ret (None, None, err)
      else
        let* (signature, signed, err) :=
          pullMirrors (AdditionalPullMirrors settings) id signature signed in
        if notNil err then Ret (None, None, err)
        else
          let* err := call (UpdateSignatureForIdentity id signature) in
          if notNil err then
            Ret (None, None,
                 Some (Errorf ("failure updating the latest snapshot for "
                               +:+ quote (Identity_String id) +:+ " to "
                               +:+ quote (Hash_String signature) +:+ ": " +:+ errv err)))
          else Ret (signature, signed, None).

End WithFormatting.

Definition signArgs (id : Identity) (h : Hash) (prevSignature : option Hash) : list string :=
  let args := [Id_Contents id; Hash_String (Some h)] in
  if notNil prevSignature then args ++ [Hash_String prevSignature] else args.

Definition Sign (id : option Identity) (h : option Hash) (prevSignature : option Hash)
  : M (option Hash * option error) :=
  match id, h with
  | None, _ => Ret (None, Some (Errorf "identity must not be nil"))
  | Some _, None => Ret (None, Some (Errorf "cannot sign a nil hash"))
  | Some id, Some h =>
      let helperCommand := "rvcs-sign-" +:+ Algorithm id in
      let args := signArgs id h prevSignature in
      let signCmd := Command helperCommand args in
      let* err := call (StdoutPipe signCmd) in
      if notNil err then
        Ret (None, Some (Errorf ("failure constructing the sign command for "
                                 +:+ quote helperCommand +:+ ": " +:+ errv err)))
      else
        let* err := call (Start signCmd) in
        if notNil err then
          Ret (None, Some (Errorf ("failure running the sign helper "
                                   +:+ quote helperCommand +:+ ": " +:+ errv err)))
        else
          let* (outBytes, err) := call (ReadAll signCmd) in
          if notNil err then
            Ret (None, Some (Errorf ("failure reading the stdout of the sign helper "
                                     +:+ quote helperCommand +:+ ": " +:+ errv err)))
          else
            let* (h, err) := call (ParseHash outBytes) in
            if notNil err then
              Ret (None, Some (Errorf ("failure parsing the stdout of the sign helper "
                                       +:+ quote helperCommand +:+ ": " +:+ errv err)))
            else
              let* err := call (UpdateSignatureForIdentity id h) in
              if notNil err then
                Ret (None, Some (Errorf ("failure updating the latest snapshot for "
                                         +:+ quote (Identity_String id) +:+ " to "
                                         +:+ quote (Hash_String h) +:+ ": " +:+ errv err)))
              else Ret (h, None)
  end.


Definition is_Wait (en : Entry Event) : bool :=
  match en with
  | Ent (Wait _) _ => true
  | _ => false
  end.


(** A step of a pull helper, or a verification, that failed. *)
Definition failed_step (en : Entry Event) : bool :=
  match en with
  | Ent e x =>
      match e in Event X return X -> bool with
      | Verify _ _ => fun r => notNil r.2
      | ParseHash _ => fun r => notNil r.2
      | StdoutPipe _ => fun r => notNil r
      | Start _ => fun r => notNil r
      | ReadAll _ => fun r => notNil r.2
      | _ => fun _ => false
      end x
  end.



(** An environment for examples.  The identity index holds the signature
    s0, which attests the snapshot t0; the signature s1 attests t1 and
    nothing else verifies.  Every helper prints the name of a signature
    that depends on the helper alone and then exits with [status]. *)
Definition sig0 : Hash := mkHash "sha256" "s0".
Definition sig1 : Hash := mkHash "sha256" "s1".
Definition snap0 : Hash := mkHash "sha256" "t0".
Definition snap1 : Hash := mkHash "sha256" "t1".

Definition exit_error (status : Z) : option error :=
  if status =? 0 then None else Some (Errorf "exit status 1").

Definition helper_answers (status : Z) : forall X : Type, Event X -> X :=
  fun X e =>
    match e in Event X return X with
    | LatestSignatureForIdentity _ => (Some sig0, None)
    | UpdateSignatureForIdentity _ _ => None
    | Verify _ signature =>
        if bool_decide (signature = Some sig0) then (Some snap0, None)
        else if bool_decide (signature = Some sig1) then (Some snap1, None)
        else (None, Some (Errorf "signature does not verify"))
    | ParseHash s => (Some (mkHash "sha256" s), None)
    | StdoutPipe _ => None
    | Start _ => None
    | ReadAll c =>
        (if bool_decide (cmd_Name c = "rvcs-pull-forged") then "xx" else "s1", None)
    | Wait _ => exit_error status
    end.

Definition helpers (status : Z) : Handler Event unit :=
  fun X e w => (helper_answers status X e, tt).

Definition example_user : Identity := mkIdentity "example" "user".

Definition mirror_of (scheme : string) : option Mirror :=
  Some {| Mirror_URL := Some {| Scheme := scheme; Rest := "///srv/mirror" |};
          HelperFlags := [] |}.



End Publish.


(** ** Properties of every value a program can return *)

Section Leaves.
Context {E : Type -> Type}.

(** Every value the program can return, whatever it is answered,
    satisfies [P]. *)
Fixpoint leaves {A : Type} (P : A -> Prop) (m : Prog E A) : Prop :=
  match m with
  | Ret a => P a
  | Vis e k => forall x, leaves P (k x)
  end.

End Leaves.

(** ** Further vocabulary for traces of package snapshot *)

Module SnapshotCalls.
Import Snapshot.

(** The handle a successful [os.Open] returned, and the handle closed. *)
Definition opened (en : Entry Event) : option Handle :=
  match en with
  | Ent e x =>
      match e in Event X return X -> option Handle with
      | Open _ => fun r => match r with Ok f => Some f | Failed _ => None end
      | _ => fun _ => None
      end x
  end.

Definition closed (en : Entry Event) : option Handle :=
  match en with
  | Ent (Close f) _ => Some f
  | _ => None
  end.

Definition handles_call (en : Entry Event) : bool :=
  match en with
  | Ent (Open _) _ => true
  | Ent (Close _) _ => true
  | _ => false
  end.

(** Every handle opened in the trace is closed in it, as often. *)
Definition balanced (t : list (Entry Event)) : Prop :=
  answers closed t ≡ₚ answers opened t.

(** A call that writes to the storage. *)
Definition storage_write (en : Entry Event) : bool :=
  match en with
  | Ent (StoreObject _ _) _ => true
  | Ent (StoreSnapshot _ _) _ => true
  | Ent (CachePathInfo _ _) _ => true
  | _ => false
  end.

(** A call that reads the file behind a path: opening it, or reading an
    open file or directory. *)
Definition follows_path (en : Entry Event) : bool :=
  match en with
  | Ent (Open _) _ => true
  | Ent (Stat _) _ => true
  | Ent (ReadDir _ _) _ => true
  | Ent (StoreObject _ (FromFile _)) _ => true
  | _ => false
  end.

(** The answer [StoreObject] gave. *)
Definition answer_StoreObject (en : Entry Event) : option (option Hash * option error) :=
  match en with
  | Ent e x =>
      match e in Event X return X -> option (option Hash * option error) with
      | StoreObject _ _ => fun r => Some r
      | _ => fun _ => None
      end x
  end.

(** A file system whose every path cannot be inspected. *)
Definition sc_unreadable : Scenario :=
  {| sc_now := 10900000000;
     sc_lstat := fun _ => Failed io_error;
     sc_stat := fun _ => Failed io_error;
     sc_entries := fun _ => [];
     sc_matchesCache := fun _ => false;
     sc_find := fun _ => (None, None, Some not_found);
     sc_storeObject := fun _ => (None, Some io_error);
     sc_storeSnapshot := fun _ _ => (Some hash_c, None) |}.

(** A symbolic link with permissions 0777. *)
Definition info_l : FileInfo :=
  {| fi_Size := 9; fi_Mode := 134218239; fi_ModTime := 9500000000 |}.

(** A file system in which every path is a symbolic link without a
    previous snapshot. *)
Definition sc_link : Scenario :=
  {| sc_now := 10900000000;
     sc_lstat := fun _ => Ok info_l;
     sc_stat := fun _ => Ok info_f;
     sc_entries := fun _ => [];
     sc_matchesCache := fun _ => false;
     sc_find := fun _ => (None, None, Some not_found);
     sc_storeObject := fun _ => (Some hash_a, None);
     sc_storeSnapshot := fun _ _ => (Some hash_c, None) |}.

(** A result in which an error comes with neither a hash nor a File. *)
Definition error_means_nothing (r : Snap) : Prop :=
  let '(h, f, err) := r in notNil err = true -> h = None /\ f = None.

Definition error_means_nothing_opt (r : option Snap) : Prop :=
  match r with
  | Some s => error_means_nothing s
  | None => True
  end.

(** The tree after the loop of [snapshotDirectory] visited [entries] and
    found the child hashes [children], in this order: a nil child leaves no
    entry. *)
Definition add_child (childHashes : Tree) (child : string * option Hash) : Tree :=
  match child.2 with
  | Some c => <[child.1 := c]> childHashes
  | None => childHashes
  end.

Definition tree_of (childHashes : Tree) (entries : list string)
    (children : list (option Hash)) : Tree :=
  foldl add_child childHashes (zip entries children).

(** The error [snapshotDirectory] returns for a child that failed. *)
Definition child_error (childPath : Path) (err : error) : error :=
  Errorf ("failure hashing the child dir " +:+ quote childPath +:+ ": " +:+ Error err).

End SnapshotCalls.

(** ** Further vocabulary for traces of package merge *)

Module MergeCalls.
Import Merge.

(** A call that does more than read a log or a snapshot record. *)
Definition acts (en : Entry Event) : bool :=
  match en with
  | Ent (ReadLog _ _) _ => false
  | Ent (ReadSnapshot _) _ => false
  | _ => true
  end.

(** What [mergeWithBase] does once the three snapshot records are read. *)
Definition afterReading
    (rec : Path -> option Hash -> option Hash -> option Hash -> M (Outcome Merged))
    (subPath : Path) (base src dest : option Hash)
    (baseFile srcFile destFile : option File) (forceKeepMode : bool)
  : M (Outcome Merged) :=
  if File_IsLink srcFile || File_IsLink destFile then
    Ret (Done (None, Some (symlinkError subPath)))
  else if negb (File_IsDir srcFile && File_IsDir destFile) then
    match destFile with
    | Some df =>
        let* r := call (mergeWithHelper subPath (Mode df) base src dest) in
        Ret (Done r)
    | None => Ret Panic
    end
  else
    mergeDirectories rec subPath base src dest baseFile srcFile destFile forceKeepMode.

(** The hash [x] is what the trivial cases of [mergeWithBase] return for a
    child that the two versions do not both change. *)
Definition settled (base src dest x : option Hash) : Prop :=
  (src = dest /\ x = src) \/ (src = base /\ x = dest) \/ (dest = base /\ x = src).





End MergeCalls.

(** ** Vocabulary for the calls of package publish *)

Module PublishCalls.
Import Publish.

(** A write of the identity index that succeeded: the identity and the
    signature recorded for it. *)
Definition updated (en : Entry Event) : option (Identity * option Hash) :=
  match en with
  | Ent e x =>
      match e in Event X return X -> option (Identity * option Hash) with
      | UpdateSignatureForIdentity id signature =>
          fun r => if isNil r then Some (id, signature) else None
      | _ => fun _ => None
      end x
  end.

(** The mirrors [Pull] goes through for an identity, in its order: those
    of every setting that bears the name of the identity, in the order of
    the settings, and then the additional ones. *)
Definition mirrors_for (settings : Settings) (id : Identity) : list (option Mirror) :=
  flat_map PullMirrors
    (List.filter (fun idSetting => bool_decide (Name idSetting = Identity_String id))
       (Identities settings))
  ++ AdditionalPullMirrors settings.

(** Settings that list [mirrors] as additional pull mirrors and nothing
    else. *)
Definition only_mirrors (mirrors : list (option Mirror)) : Settings :=
  {| Identities := []; AdditionalPullMirrors := mirrors |}.

End PublishCalls.

(** ** The command that merges a snapshot into a path *)

(** A program over the calls of one package, as a part of a program over
    the calls of a larger collection. *)
Section Lifting.
Context {E F : Type -> Type} (inj : forall X : Type, E X -> F X).

Fixpoint lift {A : Type} (m : Prog E A) : Prog F A :=
  match m with
  | Ret a => Ret a
  | Vis e k => Vis (inj _ e) (fun x => lift (k x))
  end.

Definition lift_entry (en : Entry E) : Entry F :=
  match en with
  | Ent e x => Ent (inj _ e) x
  end.

End Lifting.

Module MergeCommand.

(** The calls of [Merge]: those of [snapshot.Current] and of
    [mergeWithBase], the two calls of package os, and [Checkout] and
    [Base], functions of package merge that are not among the sources. *)
Inductive Event : Type -> Type :=
| InSnapshot {X : Type} (e : Snapshot.Event X) : Event X
| InMerge {X : Type} (e : Merge.Event X) : Event X
| MkdirAll (path : string) (perm : Z) : Event (option error)
| Checkout (h : option Hash) (dest : Path) : Event (option error)
| Base (lhs rhs : option Hash) : Event (option Hash * option error)
| RemoveAll (path : string) : Event (option error).

Abbreviation M := (Prog Event).

Section WithPaths.
(** [filepath.Dir] of the standard library. *)
Variable filepath_Dir : string -> string.

(** [Merge]; the fuel bounds the depth of the directories that
    [snapshot.Current] and [mergeWithBase] walk. *)
Definition Merge (fuel : nat) (src : option Hash) (dest : Path)
  : M (Outcome (option error)) :=
  let destParent := filepath_Dir dest in
  let* err := call (MkdirAll destParent 448) in
  if notNil err then
    Ret (Done (Some (Errorf ("failure ensuring the parent directory of " +:+ quote dest
                             +:+ " exists: " +:+ errv err))))
  else
    let* current := lift (@InSnapshot) (Snapshot.Current fuel dest) in
    match current with
    | None => Ret OutOfFuel
    | Some (destPrevHash, _, err) =>
        if notNil err then
          Ret (Done (Some (Errorf ("failure generating snapshot of destination "
                                   +:+ quote dest +:+ " prior to merging: " +:+ errv err))))
        else if isNil destPrevHash then
          (* The destination does not exist; simply check out the source hash there. *)
          let* r := call (Checkout src dest) in
          Ret (Done r)
        else
          let* (mergeBase, err) := call (Base src destPrevHash) in
          if notNil err then
            Ret (Done (Some (Errorf ("failure determining the merge base for "
                                     +:+ quote (Hash_String src) +:+ " and "
                                     +:+ quote (Hash_String destPrevHash) +:+ ": "
                                     +:+ errv err))))
          else if Hash_Equal mergeBase src then
            (* The source has already been merged in *)
            Ret (Done None)
          else
            let* merged :=
              lift (@InMerge)
                (Merge.mergeWithBase fuel dest mergeBase src destPrevHash false) in
            match merged with
            | Done (mergedHash, err) =>
                if notNil err then
                  Ret (Done (Some (Errorf ("unable to automatically merge the two snapshots: "
                                           +:+ errv err))))
                else
                  (* Update the destination to point to the merged snapshot *)
                  let* err := call (RemoveAll dest) in
                  if notNil err then
                    Ret (Done (Some (Errorf ("failure updating " +:+ quote dest
                                             +:+ " to point to newer snapshot "
                                             +:+ quote (Hash_String mergedHash)
                                             +:+ "; failure removing old files: "
                                             +:+ errv err))))
                  else
                    let* r := call (Checkout mergedHash dest) in
                    Ret (Done r)
            | Panic => Ret Panic
            | OutOfFuel => Ret OutOfFuel
            end
    end.

End WithPaths.

(** The calls that change the files under the destination. *)
Definition changes_files (en : Entry Event) : bool :=
  match en with
  | Ent (RemoveAll _) _ => true
  | Ent (Checkout _ _) _ => true
  | _ => false
  end.

(** The calls made on behalf of [mergeWithBase]. *)
Definition merging (en : Entry Event) : bool :=
  match en with
  | Ent (InMerge _) _ => true
  | _ => false
  end.

(** The answers that [Base] gave. *)
Definition answer_Base (en : Entry Event) : option (option Hash * option error) :=
  match en with
  | Ent e x =>
      match e in Event X return X -> option (option Hash * option error) with
      | Base _ _ => fun r => Some r
      | _ => fun _ => None
      end x
  end.

(** An environment for examples: the destination is the known file of
    [Snapshot.sc_known], the merge base is [base], the storage answers as
    in [Merge.clean_answers], and every other call succeeds. *)
Definition example_env (base : option Hash) : Handler Event unit :=
  fun X e w =>
    match e in Event X return X * unit with
    | InSnapshot e => Snapshot.scenario Snapshot.sc_known _ e w
    | InMerge e => Merge.fixed (Merge.clean_answers Merge.sorted_order) _ e w
    | MkdirAll _ _ => (None, tt)
    | Checkout _ _ => (None, tt)
    | Base _ _ => ((base, None), tt)
    | RemoveAll _ => (None, tt)
    end.

(** [filepath.Dir] on the paths of the examples, which all lie in /t. *)
Definition example_Dir (p : string) : string := "/t".

(** The merge of the snapshot "src" into the file /t/f of the examples. *)
Definition example_run (base : option Hash)
  : Outcome (option error) * unit * list (Entry Event) :=
  run (example_env base) (Merge example_Dir 1 (Some (Merge.hash_of "src")) "/t/f") tt.

End MergeCommand.
(** * Properties *)

(** ** Running programs *)

Section ProgramFacts.
Context {E : Type -> Type}.

Lemma run_bind {W A B : Type} (h : Handler E W) (m : Prog E A) (f : A -> Prog E B) (w : W) :
  run h (bind m f) w =
  let '(a, w1, t1) := run h m w in
  let '(b, w2, t2) := run h (f a) w1 in
  (b, w2, t1 ++ t2).
Proof.
  revert w. induction m as [a | X e k IH]; intros w; simpl.
  - destruct (run h (f a) w) as [[b w2] t2]. reflexivity.
  - destruct (h X e w) as [x w1]. rewrite IH.
    destruct (run h (k x) w1) as [[a w2] t1].
    destruct (run h (f a) w2) as [[b w3] t2]. reflexivity.
Qed.

Lemma run_call {W X : Type} (h : Handler E W) (e : E X) (w : W) :
  run h (call e) w = ((h X e w).1, (h X e w).2, [Ent e (h X e w).1]).
Proof. unfold call. simpl. destruct (h X e w). reflexivity. Qed.

Lemma avoids_bind {A B : Type} (bad : Entry E -> bool) (m : Prog E A) (f : A -> Prog E B) :
  avoids bad m -> (forall a, avoids bad (f a)) -> avoids bad (bind m f).
Proof.
  induction m as [a | X e k IH]; simpl; intros Hm Hf.
  - apply Hf.
  - intros x. destruct (Hm x) as [Hx Hk]. split; [exact Hx |]. apply IH; assumption.
Qed.

Lemma avoids_run {W A : Type} (bad : Entry E -> bool) (h : Handler E W) (m : Prog E A) (w : W) :
  avoids bad m -> existsb bad (run h m w).2 = false.
Proof.
  revert w. induction m as [a | X e k IH]; simpl; intros w Hm.
  - reflexivity.
  - destruct (h X e w) as [x w1]. destruct (Hm x) as [Hx Hk].
    specialize (IH x w1 Hk).
    destruct (run h (k x) w1) as [[a w2] t]. simpl in *.
    rewrite Hx, IH. reflexivity.
Qed.

Lemma answers_app {B : Type} (f : Entry E -> option B) (t u : list (Entry E)) :
  answers f (t ++ u) = answers f t ++ answers f u.
Proof.
  induction t as [| en t IH]; simpl; [reflexivity |].
  destruct (f en); simpl; rewrite IH; reflexivity.
Qed.

End ProgramFacts.

(** Discharges [avoids] goals on programs written out in full. *)
Ltac avoids_tac :=
  repeat first
    [ exact I
    | reflexivity
    | progress intros
    | progress simpl
    | split
    | apply avoids_bind
    | match goal with
      | |- avoids _ (match ?x with _ => _ end) => destruct x
      | |- avoids _ (if ?c then _ else _) => destruct c
      end ].

Lemma Hash_Equal_eq (h other : option Hash) : Hash_Equal h other = true <-> h = other.
Proof.
  destruct h as [[f1 x1]|], other as [[f2 x2]|]; simpl; split; try congruence.
  - rewrite andb_true_iff, !bool_decide_eq_true. intros [-> ->]. reflexivity.
  - intros [= -> ->]. rewrite !bool_decide_eq_true_2 by reflexivity. reflexivity.
Qed.

Lemma Hash_Equal_refl (h : option Hash) : Hash_Equal h h = true.
Proof. apply Hash_Equal_eq. reflexivity. Qed.

Lemma Hash_Equal_neq (h other : option Hash) : Hash_Equal h other = false <-> h <> other.
Proof.
  rewrite <- Hash_Equal_eq. destruct (Hash_Equal h other); split; congruence.
Qed.


(** ** Package snapshot *)

Module SnapshotFacts.
Import Snapshot.



Lemma readCached_quiet (p : Path) (info : FileInfo) : avoids guard_call (readCached p info).
Proof. unfold readCached. avoids_tac. Qed.

Lemma snapshotFileMetadata_quiet (p : Path) (info : FileInfo) (c : option Hash) :
  avoids guard_call (snapshotFileMetadata p info c).
Proof. unfold snapshotFileMetadata. avoids_tac. Qed.

Lemma quiet_trace (t : list (Entry Event)) :
  existsb guard_call t = false ->
  existsb is_CachePathInfo t = false /\ answers answer_Lstat t = [] /\ answers answer_timeNow t = [].
Proof.
  induction t as [| en t IH]; simpl; [auto |].
  unfold guard_call at 1. rewrite !orb_false_iff.
  intros [[[Hc Hl] Hn] Ht]. destruct (IH Ht) as (IH1 & IH2 & IH3).
  rewrite Hc, IH1. destruct (answer_Lstat en); [discriminate |].
  destruct (answer_timeNow en); [discriminate |]. auto.
Qed.

(** The deferred closure: it asks the time never, [Lstat] only for a
    snapshot that succeeded, and caches exactly when the modification time
    is unchanged and before the given instant less one second. *)
Lemma cacheDeferred_spec {W : Type} (h : Handler Event W) (w : W)
    (p : Path) (info : FileInfo) (start : Z) (res : Snap) :
  let '(_, _, t) := run h (cacheDeferred p info start res) w in
  answers answer_timeNow t = [] /\
  (existsb is_CachePathInfo t = true <->
   exists latest,
     answers answer_Lstat t = [Ok latest] /\
     fi_ModTime latest = fi_ModTime info /\
     fi_ModTime latest < start - Second) /\
  (existsb is_CachePathInfo t = true -> succeeded res = true) /\
  (succeeded res = true -> exists r, answers answer_Lstat t = [r]).
Proof.
  unfold cacheDeferred. destruct res as [[hh f] err]. unfold succeeded.
  assert (Hno : forall (t : list (result FileInfo)) (P : FileInfo -> Prop),
             (forall latest, t = [Ok latest] -> ~ P latest) ->
             (false = true <-> exists latest, t = [Ok latest] /\ P latest)).
  { intros t P Hn. split; [discriminate |]. intros (l & Hl & HP). destruct (Hn l Hl HP). }
  destruct err as [e|], hh as [hh|]; simpl;
    try (split; [reflexivity | split; [apply Hno; discriminate | split; discriminate]]).
  destruct (h _ (Lstat p) w) as [[latest | e] w1]; simpl.
  2:{ split; [reflexivity | split; [apply Hno; discriminate | split; [discriminate | eauto]]]. }
  unfold Time_Equal, Time_Before, Time_Add.
  destruct (Z.eqb_spec (fi_ModTime latest) (fi_ModTime info)) as [Heq | Hne]; simpl.
  2:{ split; [reflexivity | split; [| split; [discriminate | eauto]]].
      apply Hno. intros l [= <-] [? _]. contradiction. }
  destruct (Z.ltb_spec (fi_ModTime latest) (start + -1 * Second)) as [Hlt | Hge]; simpl.
  2:{ split; [reflexivity | split; [| split; [discriminate | eauto]]].
      apply Hno. intros l [= <-] [_ ?]. lia. }
  destruct (h _ (CachePathInfo p info) w1) as [r w2]; simpl.
  split; [reflexivity | split; [| split; [reflexivity | eauto]]].
  split; [| reflexivity]. intros _. exists latest. repeat split; [assumption | lia].
Qed.

Lemma readCached_stores_nothing (p : Path) (info : FileInfo) :
  avoids is_StoreObject (readCached p info).
Proof. unfold readCached. avoids_tac. Qed.

(** C8 (cache-write guard), with the start of the operation read the way
    the code reads it, as the clock truncated to a whole second.  In every
    run of [snapshotRegularFile], [CachePathInfo] is called if and only if
    the [Lstat] made after the contents were read answered with a
    modification time that equals the one observed before reading and that
    is strictly earlier than the truncated start less one second.  A call
    of [CachePathInfo] happens only after a snapshot that succeeded, and a
    snapshot that stored the contents and succeeded makes that one [Lstat];
    in every other case, a failed [Lstat] included, nothing is cached. *)
Theorem cache_write_guard {W : Type} (h : Handler Event W) (w : W)
    (p : Path) (info : FileInfo) (contents : Handle) :
  let '(res, _, tr) := run h (snapshotRegularFile p info contents) w in
  (existsb is_CachePathInfo tr = true <->
   exists now latest,
     answers answer_timeNow tr = [now] /\ answers answer_Lstat tr = [Ok latest] /\
     fi_ModTime latest = fi_ModTime info /\
     fi_ModTime latest < Truncate now Second - Second)
  /\ (existsb is_CachePathInfo tr = true -> succeeded res = true)
  /\ (existsb is_StoreObject tr = true -> succeeded res = true ->
      exists r, answers answer_Lstat tr = [r]).
Proof.
  unfold snapshotRegularFile. rewrite run_bind, run_call.
  destruct (h _ timeNow w) as [now w0]. cbn [fst snd]. rewrite run_bind.
  pose proof (avoids_run guard_call h _ w0 (readCached_quiet p info)) as Hq1.
  pose proof (avoids_run is_StoreObject h _ w0 (readCached_stores_nothing p info)) as Hs1.
  destruct (run h (readCached p info) w0) as [[[[ch cf] ok] w1] t1].
  simpl in Hq1, Hs1. apply quiet_trace in Hq1. destruct Hq1 as (Hc1 & Hl1 & Hn1).
  destruct ok; cbn [run].
  - rewrite app_nil_r. simpl. rewrite Hc1, Hl1, Hn1, Hs1.
    split; [| split; discriminate].
    split; [discriminate |]. intros (? & ? & _ & ? & _). discriminate.
  - rewrite run_bind.
    match goal with
    | |- context [run h ?m w1] =>
        assert (Hq2 : avoids guard_call m)
          by (avoids_tac; apply snapshotFileMetadata_quiet);
        apply (avoids_run guard_call h m w1) in Hq2;
        destruct (run h m w1) as [[res w2] t2]
    end.
    simpl in Hq2. apply quiet_trace in Hq2. destruct Hq2 as (Hc2 & Hl2 & Hn2).
    rewrite run_bind.
    pose proof (cacheDeferred_spec h w2 p info (Truncate now Second) res) as Hd.
    destruct (run h (cacheDeferred p info (Truncate now Second) res) w2) as [[u w3] t3].
    destruct Hd as (Hn3 & Hiff & Hsucc & Hlstat). cbn [run].
    rewrite app_nil_r.
    rewrite !existsb_app, !answers_app, Hc1, Hc2, Hl1, Hl2, Hn1, Hn2, Hn3. simpl.
    split; [| split].
    + rewrite Hiff. split.
      * intros (latest & ? & ? & ?). exists now, latest. auto.
      * intros (now' & latest & [= <-] & ? & ? & ?). exists latest. auto.
    + exact Hsucc.
    + intros _. exact Hlstat.
Qed.

(** The guard at work: the file was last modified at 9.5 s and the
    snapshot starts at 12 s, so the path information is cached. *)
Lemma cache_write_guard_witness :
  existsb is_CachePathInfo
    (trace_of (run (scenario sc_later) (snapshotRegularFile "/t/f" info_f 3) tt)) = true.
Proof.
  pose proof (cache_write_guard (scenario sc_later) tt "/t/f" info_f 3) as Hguard.
  unfold trace_of.
  destruct (run (scenario sc_later) (snapshotRegularFile "/t/f" info_f 3) tt)
    as [[res u] tr] eqn:E.
  vm_compute in E. injection E as <- _ <-.
  destruct Hguard as [Hiff _]. apply Hiff.
  exists 12000000000, info_f. repeat split.
Defined.

(** The guard as C8 words it, with the start of the operation taken to be
    the instant the clock showed, fails: the clock shows 10.9 s, the file
    was last modified at 9.5 s and is unchanged after reading, which is
    more than a second before the start, and still nothing is cached. *)
Lemma cache_write_guard_counterexample :
  let '(res, _, tr) := run (scenario sc_known) (snapshotRegularFile "/t/f" info_f 3) tt in
  succeeded res = true /\
  answers answer_timeNow tr = [10900000000] /\
  answers answer_Lstat tr = [Ok info_f] /\
  fi_ModTime info_f = fi_ModTime info_f /\
  fi_ModTime info_f < 10900000000 - Second /\
  existsb is_CachePathInfo tr = false.
Proof. vm_compute. repeat split; reflexivity. Qed.

(** C10 (the error of storing the tree is dropped).  Once the entries of a
    directory are read and its children are snapshotted, whatever
    [StoreObject] answers for the serialized tree, error or not,
    [snapshotDirectory] goes on to [snapshotFileMetadata] with the contents
    hash of that answer and returns what it returns: the error of the
    store never reaches the caller. *)
Theorem tree_store_error_discarded {W : Type} (h : Handler Event W) (w w1 w2 w3 : W)
    (rec : Path -> M (option Snap)) (p : Path) (info : FileInfo) (contents : Handle)
    (entries : list string) (childHashes : Tree) (t1 : list (Entry Event))
    (contentsHash : option Hash) (err : option error) :
  let store := StoreObject (Z.of_nat (String.length (Tree_String childHashes)))
                           (FromBytes (Tree_String childHashes)) in
  h _ (ReadDir contents 0) w = ((entries, None), w1) ->
  run h (snapshotChildren rec p entries ∅) w1 = (Some (inl childHashes), w2, t1) ->
  h _ store w2 = ((contentsHash, err), w3) ->
  run h (snapshotDirectory rec p info contents) w
  = let '(r, w4, t2) := run h (snapshotFileMetadata p info contentsHash) w3 in
    (Some r, w4,
     Ent (ReadDir contents 0) (entries, None) :: t1
       ++ Ent store (contentsHash, err) :: t2).
Proof.
  intros store Hread Hchildren Hstore.
  unfold snapshotDirectory. rewrite run_bind, run_call, Hread. cbn [fst snd notNil isNil negb].
  rewrite run_bind, Hchildren. rewrite run_bind, run_call. fold store. rewrite Hstore.
  cbn [fst snd]. rewrite run_bind.
  destruct (run h (snapshotFileMetadata p info contentsHash) w3) as [[r w4] t2].
  cbn [run]. rewrite app_nil_r. reflexivity.
Qed.

(** The claim at work: the object area fails with an I/O error and hands
    back no hash, and the directory is snapshotted all the same, without
    contents and without an error. *)
Lemma tree_store_error_discarded_witness :
  run (scenario sc_failing_store) (snapshotDirectory (Current 0) "/t/d" info_d 3) tt
  = (Some (Some hash_c,
           Some {| Mode := "drwxr-xr-x"; Contents := None; Parents := [] |},
           None),
     tt,
     [Ent (ReadDir 3 0) ([], None);
      Ent (StoreObject 0 (FromBytes EmptyString)) (None, Some io_error);
      Ent (FindSnapshot "/t/d") (None, None, Some not_found);
      Ent (StoreSnapshot "/t/d"
             {| Mode := "drwxr-xr-x"; Contents := None; Parents := [] |})
          (Some hash_c, None)]).
Proof.
  rewrite (tree_store_error_discarded (scenario sc_failing_store) tt tt tt tt
             (Current 0) "/t/d" info_d 3 [] ∅ [] None (Some io_error)
             eq_refl eq_refl eq_refl).
  reflexivity.
Defined.

(** [Current] on the examples: an unchanged regular file yields its
    previous snapshot and stores no File; a directory whose tree cannot be
    stored is snapshotted without an error. *)
Example Current_unchanged_file :
  let r := run (scenario sc_known) (Current 0 "/t/f") tt in
  result_of r = Some (Some hash_b, Some file_prev, None)
  /\ existsb is_StoreSnapshot (trace_of r) = false.
Proof. vm_compute. split; reflexivity. Qed.

Example Current_drops_store_error :
  result_of (run (scenario sc_failing_store) (Current 0 "/t/d") tt)
  = Some (Some hash_c,
          Some {| Mode := "drwxr-xr-x"; Contents := None; Parents := [] |},
          None).
Proof. vm_compute. reflexivity. Qed.

End SnapshotFacts.

(** ** Package merge *)

Module MergeFacts.
Import Merge.

Lemma mergeWithBase_unfold (fuel : nat) (subPath : Path) (base src dest : option Hash)
    (forceKeepMode : bool) :
  mergeWithBase fuel subPath base src dest forceKeepMode
  = mergeWithBase_body (children_of fuel forceKeepMode)
      subPath base src dest forceKeepMode.
Proof. destruct fuel; reflexivity. Qed.

(** C2 (merge trivialities).  Whatever the fuel, the environment and the
    other arguments: when the source equals the destination the source is
    returned, when the source equals the base the destination is returned,
    and when the destination equals the base the source is returned; in
    each case nothing has been read or written before (the trace is empty
    and the world is as it was). *)
Theorem merge_trivialities {W : Type} (h : Handler Event W) (w : W) (fuel : nat)
    (subPath : Path) (base src dest : option Hash) (forceKeepMode : bool) :
  (Hash_Equal src dest = true ->
   run h (mergeWithBase fuel subPath base src dest forceKeepMode) w
   = (Done (src, None), w, []))
  /\ (Hash_Equal src base = true ->
      run h (mergeWithBase fuel subPath base src dest forceKeepMode) w
      = (Done (dest, None), w, []))
  /\ (Hash_Equal dest base = true ->
      run h (mergeWithBase fuel subPath base src dest forceKeepMode) w
      = (Done (src, None), w, [])).
Proof.
  rewrite mergeWithBase_unfold. unfold mergeWithBase_body.
  repeat split; intros Heq.
  - rewrite Heq. reflexivity.
  - destruct (Hash_Equal src dest) eqn:Hsd.
    + apply Hash_Equal_eq in Hsd. subst dest. reflexivity.
    + rewrite Heq. reflexivity.
  - destruct (Hash_Equal src dest) eqn:Hsd; [reflexivity |].
    destruct (Hash_Equal src base) eqn:Hsb.
    + apply Hash_Equal_eq in Hsb, Heq. subst. reflexivity.
    + rewrite Heq. reflexivity.
Qed.

Lemma merge_trivialities_witness :
  run (fixed (conflict_answers sorted_order)) 
      (mergeWithBase 0 "/t/d" (Some (hash_of "base")) (Some (hash_of "x")) (Some (hash_of "x")) false) tt
  = (Done (Some (hash_of "x"), None), tt, [])
  /\
  run (fixed (conflict_answers sorted_order))
      (mergeWithBase 0 "/t/d" (Some (hash_of "base")) (Some (hash_of "base")) (Some (hash_of "x")) false) tt
  = (Done (Some (hash_of "x"), None), tt, [])
  /\
  run (fixed (conflict_answers sorted_order))
      (mergeWithBase 0 "/t/d" (Some (hash_of "base")) (Some (hash_of "y")) (Some (hash_of "base")) false) tt
  = (Done (Some (hash_of "y"), None), tt, []).
Proof.
  split; [| split].
  - apply (proj1 (merge_trivialities (fixed (conflict_answers sorted_order)) tt 0 "/t/d"
                    (Some (hash_of "base")) (Some (hash_of "x")) (Some (hash_of "x")) false)).
    reflexivity.
  - apply (proj1 (proj2 (merge_trivialities (fixed (conflict_answers sorted_order)) tt 0 "/t/d"
                    (Some (hash_of "base")) (Some (hash_of "base")) (Some (hash_of "x")) false))).
    reflexivity.
  - apply (proj2 (proj2 (merge_trivialities (fixed (conflict_answers sorted_order)) tt 0 "/t/d"
                    (Some (hash_of "base")) (Some (hash_of "y")) (Some (hash_of "base")) false))).
    reflexivity.
Defined.

(** When [IsAncestor] answers no: the base is not nil, the log of the
    snapshot was read without error, and no entry of it equals the base. *)
Lemma IsAncestor_false_iff {W : Type} (h : Handler Event W) (w w1 : W)
    (base hh : option Hash) (t1 : list (Entry Event)) :
  run h (IsAncestor base hh) w = ((false, None), w1, t1) <->
  base <> None /\
  exists log,
    h _ (ReadLog hh (-1)) w = ((log, None), w1) /\
    t1 = [Ent (ReadLog hh (-1)) (log, None)] /\
    existsb (fun e => Hash_Equal e base) log = false.
Proof.
  unfold IsAncestor. destruct base as [b|]; simpl.
  2:{ split; [discriminate | intros [Hb _]; congruence]. }
  destruct (h _ (ReadLog hh (-1)) w) as [[log err] w2]. simpl.
  destruct err as [e|]; simpl.
  - split; [discriminate |]. intros (_ & l & [=] & _).
  - split.
    + intros [= Hex <- <-]. split; [discriminate |]. exists log. auto.
    + intros (_ & l & [= <- <-] & -> & Hex). rewrite Hex. reflexivity.
Qed.

(** C3 (rollback detection).  Let none of the three trivial cases apply.
    If the source or the destination is nil, the merge fails with the error
    that cites a deletion, before anything is read.  Otherwise, if the base
    is not an ancestor of the source it fails with the error that cites a
    rollback in the source; and if the base is an ancestor of the source
    but not of the destination it fails with the error that cites a
    rollback in the destination.  In all three cases the hash returned is
    nil and nothing but the logs has been read. *)
Theorem rollback_detection {W : Type} (h : Handler Event W) (w : W) (fuel : nat)
    (subPath : Path) (base src dest : option Hash) (forceKeepMode : bool) :
  Hash_Equal src dest = false ->
  Hash_Equal src base = false ->
  Hash_Equal dest base = false ->
  (isNil src || isNil dest = true ->
   run h (mergeWithBase fuel subPath base src dest forceKeepMode) w
   = (Done (None, Some (deletedError subPath)), w, []))
  /\ (forall w1 t1,
        isNil src || isNil dest = false ->
        run h (IsAncestor base src) w = ((false, None), w1, t1) ->
        run h (mergeWithBase fuel subPath base src dest forceKeepMode) w
        = (Done (None, Some (rolledBackError "source" subPath)), w1, t1))
  /\ (forall w1 t1 w2 t2,
        isNil src || isNil dest = false ->
        run h (IsAncestor base src) w = ((true, None), w1, t1) ->
        run h (IsAncestor base dest) w1 = ((false, None), w2, t2) ->
        run h (mergeWithBase fuel subPath base src dest forceKeepMode) w
        = (Done (None, Some (rolledBackError "destination" subPath)), w2, t1 ++ t2)).
Proof.
  intros Hsd Hsb Hdb.
  rewrite mergeWithBase_unfold. unfold mergeWithBase_body. rewrite Hsd, Hsb, Hdb.
  split; [| split].
  - intros ->. reflexivity.
  - intros w1 t1 -> Hsrc. rewrite run_bind, Hsrc. cbn. rewrite app_nil_r. reflexivity.
  - intros w1 t1 w2 t2 -> Hsrc Hdest.
    rewrite run_bind, Hsrc. cbn [notNil isNil negb].
    rewrite run_bind, Hdest. cbn. rewrite app_nil_r. reflexivity.
Qed.

Lemma rollback_detection_witness :
  run (fixed (rolled_back_answers None))
      (mergeWithBase 0 "/t/d" (Some (hash_of "base")) None (Some (hash_of "dest")) false) tt
  = (Done (None, Some (deletedError "/t/d")), tt, [])
  /\
  run (fixed (rolled_back_answers (Some (hash_of "src"))))
      (mergeWithBase 0 "/t/d" (Some (hash_of "base")) (Some (hash_of "src"))
         (Some (hash_of "dest")) false) tt
  = (Done (None, Some (rolledBackError "source" "/t/d")), tt,
     [Ent (ReadLog (Some (hash_of "src")) (-1)) ([Some (hash_of "src")], None)])
  /\
  run (fixed (rolled_back_answers (Some (hash_of "dest"))))
      (mergeWithBase 0 "/t/d" (Some (hash_of "base")) (Some (hash_of "src"))
         (Some (hash_of "dest")) false) tt
  = (Done (None, Some (rolledBackError "destination" "/t/d")), tt,
     [Ent (ReadLog (Some (hash_of "src")) (-1))
          ([Some (hash_of "src"); Some (hash_of "base")], None)]
     ++ [Ent (ReadLog (Some (hash_of "dest")) (-1)) ([Some (hash_of "dest")], None)]).
Proof.
  split; [| split].
  - apply (proj1 (rollback_detection (fixed (rolled_back_answers None)) tt 0 "/t/d"
                    (Some (hash_of "base")) None (Some (hash_of "dest")) false
                    eq_refl eq_refl eq_refl)).
    reflexivity.
  - apply (proj1 (proj2 (rollback_detection
                           (fixed (rolled_back_answers (Some (hash_of "src")))) tt 0 "/t/d"
                           (Some (hash_of "base")) (Some (hash_of "src"))
                           (Some (hash_of "dest")) false eq_refl eq_refl eq_refl)));
      reflexivity.
  - apply (proj2 (proj2 (rollback_detection
                           (fixed (rolled_back_answers (Some (hash_of "dest")))) tt 0 "/t/d"
                           (Some (hash_of "base")) (Some (hash_of "src"))
                           (Some (hash_of "dest")) false eq_refl eq_refl eq_refl))
             tt _ tt _); reflexivity.
Defined.

Lemma storeMerged_ok {W : Type} (h : Handler Event W) (w w' : W)
    (src dest : option Hash) (srcMode : string) (mergedTree : Tree)
    (nestedErrors : list string) (hres : option Hash) (t : list (Entry Event)) :
  run h (storeMerged src dest srcMode mergedTree nestedErrors) w = ((hres, None), w', t) ->
  nestedErrors = [] /\
  exists contentsHash,
    t = [Ent (store_tree mergedTree) (contentsHash, None);
         Ent (store_file {| Mode := srcMode; Contents := contentsHash;
                            Parents := [src; dest] |}) (hres, None)].
Proof.
  unfold storeMerged. destruct nestedErrors as [| e errs]; simpl; [| discriminate].
  fold (store_tree mergedTree).
  destruct (h _ (store_tree mergedTree) w) as [[contentsHash err] w1].
  destruct err as [e|]; simpl; [discriminate |].
  match goal with
  | |- context [h _ ?e w1] => destruct (h _ e w1) as [[hh err] w2]
  end.
  destruct err as [e|]; simpl; [discriminate |].
  intros [= -> -> <-]. split; [reflexivity |]. exists contentsHash. reflexivity.
Qed.


Lemma IsAncestor_reads_no_snapshot (base hh : option Hash) :
  avoids is_ReadSnapshot (IsAncestor base hh).
Proof. unfold IsAncestor. avoids_tac. Qed.

Lemma no_ReadSnapshot_answers (t : list (Entry Event)) :
  existsb is_ReadSnapshot t = false -> answers answer_ReadSnapshot t = [].
Proof.
  induction t as [| en t IH]; simpl; [reflexivity |].
  unfold is_ReadSnapshot at 1. destruct (answer_ReadSnapshot en); simpl; [discriminate |].
  exact IH.
Qed.



(** The clean three-way merge of the specification: the merged tree holds
    the changed a, the untouched b and the added c, and the merged File has
    the source and the destination as its parents. *)
Example clean_merge_result :
  result_of clean_run = Done (Some (hash_of "merged"), None) /\
  drop 9 clean_trace
  = [Ent (store_tree merged_tree) (Some (hash_of "tree"), None);
     Ent (store_file {| Mode := "drwxr-xr-x"; Contents := Some (hash_of "tree");
                        Parents := [Some (hash_of "src"); Some (hash_of "dest")] |})
         (Some (hash_of "merged"), None)].
Proof. split; vm_compute; reflexivity. Qed.

(** *** Determinism of successful merges *)

Section Reproducible.
Variable ans : forall X : Type, Event X -> X.

Lemma carries_Ret {A : Type} (good : A -> Prop) (a : A) : carries ans good (Ret a).
Proof. intros W1 W2 h1 h2 _ _ w1 w2 _. reflexivity. Qed.

Lemma carries_Vis {A X : Type} (good : A -> Prop) (e : Event X) (k : X -> M A) :
  is_mapRange e = false ->
  (forall x, carries ans good (k x)) ->
  carries ans good (Vis e k).
Proof.
  intros He Hk W1 W2 h1 h2 H1 H2 w1 w2. unfold result_of. simpl.
  pose proof (proj1 H1 X e w1 He) as E1. pose proof (proj1 H2 X e w2 He) as E2.
  destruct (h1 X e w1) as [x1 w1'], (h2 X e w2) as [x2 w2']. simpl in E1, E2. subst x1 x2.
  specialize (Hk (ans X e) W1 W2 h1 h2 H1 H2 w1' w2'). unfold result_of in Hk.
  destruct (run h1 (k (ans X e)) w1') as [[a1 ?] ?], (run h2 (k (ans X e)) w2') as [[a2 ?] ?].
  exact Hk.
Qed.

Lemma carries_bind {A B : Type} (good' : A -> Prop) (good : B -> Prop)
    (m : M A) (f : A -> M B) :
  carries ans good' m ->
  (forall a, carries ans good (f a)) ->
  (forall a (W : Type) (h : Handler Event W) (w : W),
      good (result_of (run h (f a) w)) -> good' a) ->
  carries ans good (bind m f).
Proof.
  intros Hm Hf Hgood W1 W2 h1 h2 H1 H2 w1 w2. unfold result_of. rewrite !run_bind.
  specialize (Hm W1 W2 h1 h2 H1 H2 w1 w2). unfold result_of in Hm.
  destruct (run h1 m w1) as [[a1 w1'] t1], (run h2 m w2) as [[a2 w2'] t2]. simpl in Hm.
  specialize (Hf a1 W1 W2 h1 h2 H1 H2 w1' w2'). unfold result_of in Hf.
  specialize (Hgood a1 W1 h1 w1'). unfold result_of in Hgood.
  destruct (run h1 (f a1) w1') as [[b1 ?] ?] eqn:E1. simpl in *.
  intros Hb. rewrite (Hm (Hgood Hb)).
  destruct (run h2 (f a1) w2') as [[b2 ?] ?]. simpl in *. exact (Hf Hb).
Qed.

(** The loop over the children, for recursive calls that carry their
    successes. *)
Section Loop.
Variable rec : Path -> option Hash -> option Hash -> option Hash -> M (Outcome Merged).
Variables (subPath : Path) (baseTree srcTree destTree : Tree).
Hypothesis Hrec : forall sp b s d, carries ans merged_ok (rec sp b s d).

Let child (p : Path) : M (Outcome Merged) :=
  rec (Path_Join subPath p) (baseTree !! p) (srcTree !! p) (destTree !! p).

Let ins (p : Path) (mergedChild : option Hash) (mergedTree : Tree) : Tree :=
  match mergedChild with
  | Some c => <[p := c]> mergedTree
  | None => mergedTree
  end.

Let loop := mergeChildren rec subPath baseTree srcTree destTree.

Lemma loop_errors_grow {W : Type} (h : Handler Event W) (l : list Path) :
  forall (tree : Tree) (errs : list string) (w : W) (tree' : Tree) (errs' : list string),
    result_of (run h (loop l tree errs) w) = Done (tree', errs') ->
    exists more, errs' = errs ++ more.
Proof.
  unfold loop, result_of.
  induction l as [| p l IH]; intros tree errs w tree' errs'; simpl.
  - intros [= _ <-]. exists []. rewrite app_nil_r. reflexivity.
  - rewrite run_bind.
    destruct (run h (rec _ _ _ _) w) as [[r w1] t1].
    destruct r as [[mc err] | |].
    + destruct (run h (mergeChildren _ _ _ _ _ l _ _) w1) as [[r2 w2] t2] eqn:E.
      simpl. intros ->.
      match type of E with
      | run h (mergeChildren _ _ _ _ _ l ?t ?e) w1 = _ =>
          specialize (IH t e w1 tree' errs')
      end.
      rewrite E in IH. simpl in IH.
      destruct (IH eq_refl) as [more ->].
      destruct err as [e|]; [| eauto].
      exists ([Error e] ++ more). rewrite app_assoc. reflexivity.
    + simpl. discriminate.
    + simpl. discriminate.
Qed.

Lemma loop_cons_inv {W : Type} (h : Handler Event W) (p : Path) (l : list Path)
    (tree tree' : Tree) (w : W) :
  result_of (run h (loop (p :: l) tree []) w) = Done (tree', []) ->
  exists mc w',
    result_of (run h (child p) w) = Done (mc, None) /\
    result_of (run h (loop l (ins p mc tree) []) w') = Done (tree', []).
Proof.
  unfold loop, child, ins, result_of. simpl. rewrite run_bind.
  destruct (run h (rec _ _ _ _) w) as [[r w1] t1].
  destruct r as [[mc err] | |]; simpl; [| discriminate | discriminate].
  destruct (run h (mergeChildren _ _ _ _ _ l _ _) w1) as [[r2 w2] t2] eqn:E. simpl.
  intros ->. destruct err as [e|].
  - match type of E with
    | run h (mergeChildren _ _ _ _ _ l ?t ?e) w1 = _ =>
        pose proof (loop_errors_grow h l t e w1 tree' []) as Hg
    end.
    unfold loop, result_of in Hg. rewrite E in Hg.
    destruct (Hg eq_refl) as [more Hmore]. destruct more; discriminate Hmore.
  - exists mc, w1. rewrite E. auto.
Qed.

Lemma loop_cons_intro {W : Type} (h : Handler Event W) (p : Path) (l : list Path)
    (tree tree' : Tree) (w : W) (mc : option Hash) :
  result_of (run h (child p) w) = Done (mc, None) ->
  (forall w', result_of (run h (loop l (ins p mc tree) []) w') = Done (tree', [])) ->
  result_of (run h (loop (p :: l) tree []) w) = Done (tree', []).
Proof.
  unfold loop, child, ins, result_of. simpl. rewrite run_bind.
  destruct (run h (rec _ _ _ _) w) as [[r w1] t1]. simpl. intros -> Hrest.
  specialize (Hrest w1).
  destruct (run h (mergeChildren _ _ _ _ _ l _ _) w1) as [[r2 w2] t2].
  exact Hrest.
Qed.

Lemma child_carried {W1 W2 : Type} (h1 : Handler Event W1) (h2 : Handler Event W2)
    (p : Path) (w1 : W1) (w2 : W2) (mc : option Hash) :
  reproducible ans h1 -> reproducible ans h2 ->
  result_of (run h1 (child p) w1) = Done (mc, None) ->
  result_of (run h2 (child p) w2) = Done (mc, None).
Proof.
  intros H1 H2 Hc. unfold child in *.
  rewrite (Hrec _ _ _ _ W1 W2 h1 h2 H1 H2 w1 w2); [exact Hc |].
  rewrite Hc. exact I.
Qed.

Lemma loop_same_order (l : list Path) :
  forall (W1 W2 : Type) (h1 : Handler Event W1) (h2 : Handler Event W2),
    reproducible ans h1 -> reproducible ans h2 ->
    forall (tree tree' : Tree) (w1 : W1) (w2 : W2),
      result_of (run h1 (loop l tree []) w1) = Done (tree', []) ->
      result_of (run h2 (loop l tree []) w2) = Done (tree', []).
Proof.
  intros W1 W2 h1 h2 H1 H2.
  induction l as [| p l IHl]; intros tree tree' w1 w2 Hrun; [exact Hrun |].
  apply loop_cons_inv in Hrun. destruct Hrun as (mc & w1' & Hc & Hrest).
  apply (loop_cons_intro h2 p l tree tree' w2 mc).
  - exact (child_carried h1 h2 p w1 w2 mc H1 H2 Hc).
  - intros w2'. exact (IHl _ _ w1' w2' Hrest).
Qed.

(** The merged tree of a loop that ends without a nested error does not
    depend on the order in which the names are visited. *)
Lemma loop_permutation (l1 l2 : list Path) :
  l1 ≡ₚ l2 -> NoDup l1 ->
  forall (W1 W2 : Type) (h1 : Handler Event W1) (h2 : Handler Event W2),
    reproducible ans h1 -> reproducible ans h2 ->
    forall (tree tree' : Tree) (w1 : W1) (w2 : W2),
      result_of (run h1 (loop l1 tree []) w1) = Done (tree', []) ->
      result_of (run h2 (loop l2 tree []) w2) = Done (tree', []).
Proof.
  induction 1 as [| x l l' Hperm IH | x y l | l l' l'' Hp1 IH1 Hp2 IH2];
    intros Hnd W1 W2 h1 h2 H1 H2 tree tree' w1 w2 Hrun.
  - exact Hrun.
  - apply NoDup_cons in Hnd. destruct Hnd as [_ Hnd].
    apply loop_cons_inv in Hrun. destruct Hrun as (mc & w1' & Hc & Hrest).
    apply (loop_cons_intro h2 x l' tree tree' w2 mc).
    + exact (child_carried h1 h2 x w1 w2 mc H1 H2 Hc).
    + intros w2'. exact (IH Hnd W1 W2 h1 h2 H1 H2 _ _ w1' w2' Hrest).
  - apply NoDup_cons in Hnd. destruct Hnd as [Hy Hnd].
    apply NoDup_cons in Hnd. destruct Hnd as [_ Hnd].
    assert (Hxy : x <> y) by (intros ->; apply Hy; left).
    apply loop_cons_inv in Hrun. destruct Hrun as (mcy & w1' & Hcy & Hrun).
    apply loop_cons_inv in Hrun. destruct Hrun as (mcx & w1'' & Hcx & Hrest).
    apply (loop_cons_intro h2 x (y :: l) tree tree' w2 mcx).
    + exact (child_carried h1 h2 x w1' w2 mcx H1 H2 Hcx).
    + intros w2'. apply (loop_cons_intro h2 y l _ tree' w2' mcy).
      * exact (child_carried h1 h2 y w1 w2' mcy H1 H2 Hcy).
      * intros w2''.
        assert (Hswap : ins y mcy (ins x mcx tree) = ins x mcx (ins y mcy tree)).
        { unfold ins. destruct mcx, mcy; try reflexivity.
          apply insert_insert_ne. congruence. }
        rewrite Hswap.
        exact (loop_same_order l W1 W2 h1 h2 H1 H2 _ tree' w1'' w2'' Hrest).
  - assert (Hnd' : NoDup l') by (rewrite <- Hp1; exact Hnd).
    apply (IH2 Hnd' W1 W2 h1 h2 H1 H2 tree tree' w1 w2).
    exact (IH1 Hnd W1 W1 h1 h1 H1 H1 tree tree' w1 w1 Hrun).
Qed.

End Loop.

Lemma carries_store (src dest : option Hash) (srcMode : string) (tree : Tree)
    (errs : list string) :
  carries ans merged_ok
    (bind (storeMerged src dest srcMode tree errs) (fun r => Ret (Done r))).
Proof.
  unfold storeMerged. destruct errs; simpl; [| apply carries_Ret].
  apply carries_Vis; [reflexivity |]. intros [contentsHash [e|]]; simpl; [apply carries_Ret |].
  apply carries_Vis; [reflexivity |]. intros [hh [e|]]; simpl; apply carries_Ret.
Qed.

Lemma store_needs_no_errors {W : Type} (h : Handler Event W) (w : W)
    (src dest : option Hash) (srcMode : string) (tree : Tree) (errs : list string) :
  merged_ok (result_of (run h (bind (storeMerged src dest srcMode tree errs)
                                 (fun r => Ret (Done r))) w)) ->
  errs = [].
Proof.
  unfold storeMerged. destruct errs; [reflexivity |]. simpl. intros [].
Qed.

Lemma carries_mergeDirectories
    (rec : Path -> option Hash -> option Hash -> option Hash -> M (Outcome Merged))
    (subPath : Path) (base src dest : option Hash)
    (baseFile srcFile destFile : option File) (forceKeepMode : bool) :
  (forall sp b s d, carries ans merged_ok (rec sp b s d)) ->
  carries ans merged_ok
    (mergeDirectories rec subPath base src dest baseFile srcFile destFile forceKeepMode).
Proof.
  intros Hrec.
  unfold mergeDirectories. cbn [bind call].
  apply carries_Vis; [reflexivity |]. intros [sTree [e1|]]; cbn [notNil isNil negb];
    [apply carries_Ret |].
  apply carries_Vis; [reflexivity |]. intros [dTree [e2|]]; cbn [notNil isNil negb];
    [apply carries_Ret |].
  assert (Hrange : forall bTree : Tree,
    carries ans merged_ok
      (Vis (mapRange (dom sTree ∪ dom dTree))
         (fun order =>
            bind (mergeChildren rec subPath bTree sTree dTree order ∅ [])
              (fun children =>
                 match children, srcFile, destFile with
                 | Done (mergedTree, nestedErrors), Some sf, Some df =>
                     bind (storeMerged src dest (Mode sf) mergedTree
                             (if negb (bool_decide (Mode sf = Mode df)) && negb forceKeepMode
                              then nestedErrors ++ [modeMismatch subPath (Mode sf) (Mode df)]
                              else nestedErrors))
                          (fun r => Ret (Done r))
                 | Done _, _, _ => Ret Panic
                 | Panic, _, _ => Ret Panic
                 | OutOfFuel, _, _ => Ret OutOfFuel
                 end)))).
  { intros bTree W1 W2 h1 h2 H1 H2 w1 w2. unfold result_of. cbn [run].
    pose proof (proj2 H1 (dom sTree ∪ dom dTree) w1) as P1.
    pose proof (proj2 H2 (dom sTree ∪ dom dTree) w2) as P2.
    destruct (h1 _ (mapRange (dom sTree ∪ dom dTree)) w1) as [o1 w1'].
    destruct (h2 _ (mapRange (dom sTree ∪ dom dTree)) w2) as [o2 w2'].
    cbn [fst] in P1, P2. rewrite !run_bind.
    pose proof (fun tree' =>
                  loop_permutation rec subPath bTree sTree dTree Hrec o1 o2
                    ltac:(rewrite P1, P2; reflexivity)
                    ltac:(rewrite P1; apply NoDup_elements)
                    W1 W2 h1 h2 H1 H2 ∅ tree' w1' w2') as Hperm.
    unfold result_of in Hperm.
    destruct (run h1 (mergeChildren rec subPath bTree sTree dTree o1 ∅ []) w1')
      as [[c1 w1''] t1].
    destruct (run h2 (mergeChildren rec subPath bTree sTree dTree o2 ∅ []) w2')
      as [[c2 w2''] t2].
    cbn [fst snd] in Hperm.
    destruct c1 as [[tree errs] | |]; [| cbn; intros [] | cbn; intros []].
    destruct srcFile as [sf|], destFile as [df|]; try (cbn; intros []; fail).
    pose proof (carries_store src dest (Mode sf) tree
                  (if negb (bool_decide (Mode sf = Mode df)) && negb forceKeepMode
                   then errs ++ [modeMismatch subPath (Mode sf) (Mode df)]
                   else errs) W1 W2 h1 h2 H1 H2 w1'' w2'') as Hk.
    pose proof (store_needs_no_errors h1 w1'' src dest (Mode sf) tree
                  (if negb (bool_decide (Mode sf = Mode df)) && negb forceKeepMode
                   then errs ++ [modeMismatch subPath (Mode sf) (Mode df)]
                   else errs)) as Hnone.
    unfold result_of in Hk, Hnone.
    destruct (run h1 (bind (storeMerged _ _ _ _ _) _) w1'') as [[r1 ?] ?].
    cbn [fst snd]. intros Hgood. cbn [fst snd] in Hk, Hnone.
    assert (errs = []) as ->.
    { specialize (Hnone Hgood).
      destruct (negb (bool_decide (Mode sf = Mode df)) && negb forceKeepMode);
        [destruct errs; discriminate | exact Hnone]. }
    rewrite (Hperm tree eq_refl) in *.
    destruct (run h2 (bind (storeMerged _ _ _ _ _) _) w2'') as [[r2 ?] ?].
    cbn [fst snd] in *. exact (Hk Hgood). }
  destruct (File_IsDir baseFile); cbn [bind call].
  - apply carries_Vis; [reflexivity |]. intros [bTree [e3|]]; cbn [notNil isNil negb];
      [apply carries_Ret |].
    apply Hrange.
  - cbn [notNil isNil negb]. apply Hrange.
Qed.

Lemma carries_IsAncestor (base hh : option Hash) :
  carries ans (fun _ => True) (IsAncestor base hh).
Proof.
  unfold IsAncestor. destruct base; simpl; [| apply carries_Ret].
  apply carries_Vis; [reflexivity |]. intros [log [e|]]; simpl; apply carries_Ret.
Qed.

Lemma carries_body
    (rec : Path -> option Hash -> option Hash -> option Hash -> M (Outcome Merged))
    (subPath : Path) (base src dest : option Hash) (forceKeepMode : bool) :
  (forall sp b s d, carries ans merged_ok (rec sp b s d)) ->
  carries ans merged_ok (mergeWithBase_body rec subPath base src dest forceKeepMode).
Proof.
  intros Hrec. unfold mergeWithBase_body.
  destruct (Hash_Equal src dest); [apply carries_Ret |].
  destruct (Hash_Equal src base); [apply carries_Ret |].
  destruct (Hash_Equal dest base); [apply carries_Ret |].
  destruct (isNil src || isNil dest); [apply carries_Ret |].
  apply (carries_bind (fun _ => True)); [apply carries_IsAncestor | | trivial].
  intros [anc1 [e1|]]; cbn [notNil isNil negb]; [apply carries_Ret |].
  destruct anc1; cbn [negb]; [| apply carries_Ret].
  apply (carries_bind (fun _ => True)); [apply carries_IsAncestor | | trivial].
  intros [anc2 [e2|]]; cbn [notNil isNil negb]; [apply carries_Ret |].
  destruct anc2; cbn [negb]; [| apply carries_Ret].
  cbn [bind call].
  apply carries_Vis; [reflexivity |].
  intros [srcFile [e3|]]; cbn [notNil isNil negb]; [apply carries_Ret |].
  apply carries_Vis; [reflexivity |].
  intros [destFile [e4|]]; cbn [notNil isNil negb]; [apply carries_Ret |].
  assert (Hrest : forall baseFile : option File,
    carries ans merged_ok
      (if File_IsLink srcFile || File_IsLink destFile
       then Ret (Done (None, Some (symlinkError subPath)))
       else if negb (File_IsDir srcFile && File_IsDir destFile)
       then match destFile with
            | Some df =>
                bind (call (mergeWithHelper subPath (Mode df) base src dest))
                     (fun r => Ret (Done r))
            | None => Ret Panic
            end
       else mergeDirectories rec subPath base src dest baseFile srcFile destFile
              forceKeepMode)).
  { intros baseFile.
    destruct (File_IsLink srcFile || File_IsLink destFile); [apply carries_Ret |].
    destruct (negb (File_IsDir srcFile && File_IsDir destFile)).
    - destruct destFile; [| apply carries_Ret]. cbn [bind call].
      apply carries_Vis; [reflexivity |]. intros r. apply carries_Ret.
    - apply carries_mergeDirectories. exact Hrec. }
  destruct base as [b|]; cbn [notNil isNil negb bind call].
  - apply carries_Vis; [reflexivity |].
    intros [baseFile [e5|]]; cbn [notNil isNil negb]; [apply carries_Ret |].
    apply Hrest.
  - apply Hrest.
Qed.

Lemma carries_mergeWithBase (fuel : nat) :
  forall (subPath : Path) (base src dest : option Hash) (forceKeepMode : bool),
    carries ans merged_ok (mergeWithBase fuel subPath base src dest forceKeepMode).
Proof.
  induction fuel as [| n IH]; intros subPath base src dest forceKeepMode;
    rewrite mergeWithBase_unfold; apply carries_body; intros sp b s d; cbn [children_of].
  - apply carries_Ret.
  - apply IH.
Qed.

End Reproducible.

(** C9 (determinism of a directory merge), as far as the code goes.  The
    range loop over the union of the child names visits them in an order
    the runtime chooses.  Take two environments that answer every storage
    and helper call alike, from the request alone, and that hand out the
    names of a map in any two orders.  If the merge succeeds in one of them,
    it succeeds in the other with the same hash: the merged tree, and the
    serialized tree and File stored for it, do not depend on the order. *)
Theorem merge_success_independent_of_order {W1 W2 : Type}
    (ans : forall X : Type, Event X -> X)
    (h1 : Handler Event W1) (h2 : Handler Event W2) (w1 : W1) (w2 : W2)
    (fuel : nat) (subPath : Path) (base src dest : option Hash) (forceKeepMode : bool)
    (hres : option Hash) :
  reproducible ans h1 ->
  reproducible ans h2 ->
  result_of (run h1 (mergeWithBase fuel subPath base src dest forceKeepMode) w1)
  = Done (hres, None) ->
  result_of (run h2 (mergeWithBase fuel subPath base src dest forceKeepMode) w2)
  = Done (hres, None).
Proof.
  intros H1 H2 Hrun.
  rewrite (carries_mergeWithBase ans fuel subPath base src dest forceKeepMode
             W1 W2 h1 h2 H1 H2 w1 w2); [exact Hrun |].
  rewrite Hrun. exact I.
Qed.

Lemma sorted_order_valid (keys : gset Path) : sorted_order keys ≡ₚ elements keys.
Proof. unfold sorted_order. apply merge_sort_Permutation. Qed.

Lemma reverse_order_valid (keys : gset Path) : reverse_order keys ≡ₚ elements keys.
Proof.
  unfold reverse_order. rewrite reverse_Permutation. apply sorted_order_valid.
Qed.

Lemma clean_reproducible (order : gset Path -> list Path) :
  (forall keys, order keys ≡ₚ elements keys) ->
  reproducible (clean_answers sorted_order) (fixed (clean_answers order)).
Proof.
  intros Hvalid. split.
  - intros X e w He. destruct e; try reflexivity. discriminate He.
  - intros keys w. apply Hvalid.
Qed.

Lemma merge_success_independent_of_order_witness :
  result_of (run (fixed (clean_answers reverse_order))
               (mergeWithBase 1 "/t/d" (Some (hash_of "base")) (Some (hash_of "src"))
                  (Some (hash_of "dest")) false) tt)
  = Done (Some (hash_of "merged"), None).
Proof.
  apply (merge_success_independent_of_order (clean_answers sorted_order)
           (fixed (clean_answers sorted_order)) (fixed (clean_answers reverse_order))
           tt tt 1 "/t/d" (Some (hash_of "base")) (Some (hash_of "src"))
           (Some (hash_of "dest")) false (Some (hash_of "merged"))).
  - apply clean_reproducible, sorted_order_valid.
  - apply clean_reproducible, reverse_order_valid.
  - vm_compute. reflexivity.
Defined.

(** C9 as worded fails.  The same two directories are merged twice, in
    environments that differ only in the order of the range loop: once the
    names come sorted, once backwards, which a Go map may do.  Both merges
    fail, and the joined error messages differ: the two nested errors come
    in the order in which the names were visited. *)
Lemma merge_errors_follow_iteration_order :
  sorted_order {["a"; "b"]} = ["a"; "b"] /\
  reverse_order {["a"; "b"]} = ["b"; "a"] /\
  conflict_run sorted_order
  = Done (None, Some (Errorf (Error (deletedError "/t/d/a") +:+ newline
                              +:+ Error (deletedError "/t/d/b")))) /\
  conflict_run reverse_order
  = Done (None, Some (Errorf (Error (deletedError "/t/d/b") +:+ newline
                              +:+ Error (deletedError "/t/d/a")))) /\
  conflict_run sorted_order <> conflict_run reverse_order.
Proof.
  repeat split; try (vm_compute; reflexivity).
  vm_compute. discriminate.
Qed.

End MergeFacts.

(** ** Package publish *)

Module PublishFacts.
Import Publish.

Lemma Sign_never_waits (id : option Identity) (h prevSignature : option Hash) :
  avoids is_Wait (Sign id h prevSignature).
Proof. unfold Sign. destruct id, h; avoids_tac. Qed.

Lemma pullFrom_never_waits (m : option Mirror) (id : Identity) (prev : option Hash) :
  avoids is_Wait (pullFrom m id prev).
Proof. unfold pullFrom. destruct m as [[[u|] flags]|]; avoids_tac. Qed.



Section Pulling.
Variable Mirror_q : option Mirror -> string.
Context {W : Type} (h : Handler Event W).






End Pulling.


Lemma signArgs_spec (id : Identity) (h : Hash) (prevSignature : option Hash) :
  signArgs id h prevSignature
  = Id_Contents id :: Hash_String (Some h)
      :: match prevSignature with
         | Some _ => [Hash_String prevSignature]
         | None => []
         end.
Proof. unfold signArgs. destruct prevSignature; reflexivity. Qed.

(** C6 (exit code of a helper), at a helper that prints a well-formed hash
    and then exits with status 1, which [Wait] would report: [Sign] and
    [pullFrom] never wait for the helper, so both return the hash it
    printed and no error, and [Sign] has written it to the identity
    index. *)
Theorem exit_status_is_ignored :
  helper_answers 1 _ (Wait (Command "rvcs-sign-example" [])) = Some (Errorf "exit status 1")
  /\ run (helpers 1) (Sign (Some example_user) (Some snap1) (Some sig0)) tt
     = ((Some sig1, None), tt,
        let c := Command "rvcs-sign-example" ["user"; "sha256:t1"; "sha256:s0"] in
        [Ent (StdoutPipe c) None; Ent (Start c) None; Ent (ReadAll c) ("s1", None);
         Ent (ParseHash "s1") (Some sig1, None);
         Ent (UpdateSignatureForIdentity example_user (Some sig1)) None])
  /\ run (helpers 1) (pullFrom (mirror_of "file") example_user (Some sig0)) tt
     = ((Some sig1, None), tt,
        let c := Command "rvcs-pull-file" ["example::user"; "sha256:s0"] in
        [Ent (StdoutPipe c) None; Ent (Start c) None; Ent (ReadAll c) ("s1", None);
         Ent (ParseHash "s1") (Some sig1, None)]).
Proof. repeat split; vm_compute; reflexivity. Qed.

(** C7 (argument vector of the sign helper), at the identity example::user
    with no previous signature: the helper rvcs-sign-example is started
    with two arguments, the contents of the identity without its namespace
    and the hash to sign; the output is parsed, written to the identity
    index and returned. *)
Theorem sign_argument_vector :
  Identity_String example_user = "example::user"
  /\ run (helpers 0) (Sign (Some example_user) (Some snap1) None) tt
     = ((Some sig1, None), tt,
        let c := Command "rvcs-sign-example" ["user"; "sha256:t1"] in
        [Ent (StdoutPipe c) None; Ent (Start c) None; Ent (ReadAll c) ("s1", None);
         Ent (ParseHash "s1") (Some sig1, None);
         Ent (UpdateSignatureForIdentity example_user (Some sig1)) None]).
Proof. split; vm_compute; reflexivity. Qed.

End PublishFacts.

(** ** Values returned by programs *)

Section LeavesFacts.
Context {E : Type -> Type}.

Lemma leaves_run {W A : Type} (P : A -> Prop) (h : Handler E W) (m : Prog E A) (w : W) :
  leaves P m -> P (result_of (run h m w)).
Proof.
  unfold result_of. revert w. induction m as [a | X e k IH]; simpl; intros w Hm.
  - exact Hm.
  - destruct (h X e w) as [x w1]. specialize (IH x w1 (Hm x)).
    destruct (run h (k x) w1) as [[a w2] t]. exact IH.
Qed.

Lemma leaves_bind {A B : Type} (P : B -> Prop) (m : Prog E A) (f : A -> Prog E B) :
  (forall a, leaves P (f a)) -> leaves P (bind m f).
Proof.
  intros Hf. induction m as [a | X e k IH]; simpl; [apply Hf |].
  intros x. apply IH.
Qed.

Lemma leaves_bind_with {A B : Type} (Q : A -> Prop) (P : B -> Prop)
    (m : Prog E A) (f : A -> Prog E B) :
  leaves Q m -> (forall a, Q a -> leaves P (f a)) -> leaves P (bind m f).
Proof.
  intros Hm Hf. induction m as [a | X e k IH]; simpl in *; [apply Hf, Hm |].
  intros x. apply IH, Hm.
Qed.

End LeavesFacts.

Lemma first_call {E : Type -> Type} {W X A B : Type} (h : Handler E W) (e : E X)
    (f : X -> Prog E A) (g : A -> Prog E B) (w : W) :
  exists x t, (run h (bind (bind (call e) f) g) w).2 = Ent e x :: t.
Proof.
  cbn. destruct (h X e w) as [x w1].
  destruct (run h (bind (f x) g) w1) as [[b w2] t]. exists x, t. reflexivity.
Qed.

(** Discharges [leaves] goals on programs written out in full. *)
Ltac leaves_tac :=
  repeat first
    [ exact I
    | progress intros
    | progress simpl
    | apply leaves_bind
    | match goal with
      | |- leaves _ (match ?x with _ => _ end) => destruct x
      | |- leaves _ (if ?c then _ else _) => destruct c
      end
    | solve [split; [reflexivity | reflexivity]]
    | discriminate ].

(** ** More about package snapshot *)

Module SnapshotMore.
Import Snapshot SnapshotCalls.

Lemma no_handles (t : list (Entry Event)) :
  existsb handles_call t = false -> answers opened t = [] /\ answers closed t = [].
Proof.
  induction t as [| en t IH]; simpl; [auto |].
  rewrite orb_false_iff. intros [Hen Ht]. destruct (IH Ht) as [IH1 IH2].
  destruct en as [X e x]. destruct e; simpl in *; try discriminate; auto.
Qed.

Lemma balanced_quiet (t : list (Entry Event)) :
  existsb handles_call t = false -> balanced t.
Proof.
  intros Ht. apply no_handles in Ht. destruct Ht as [Ho Hc].
  unfold balanced. rewrite Ho, Hc. reflexivity.
Qed.

Lemma balanced_app (t u : list (Entry Event)) :
  balanced t -> balanced u -> balanced (t ++ u).
Proof.
  unfold balanced. intros Ht Hu. rewrite !answers_app, Ht, Hu. reflexivity.
Qed.

Lemma snapshotFileMetadata_handles (p : Path) (info : FileInfo) (c : option Hash) :
  avoids handles_call (snapshotFileMetadata p info c).
Proof. unfold snapshotFileMetadata. avoids_tac. Qed.

Lemma snapshotRegularFile_handles (p : Path) (info : FileInfo) (contents : Handle) :
  avoids handles_call (snapshotRegularFile p info contents).
Proof.
  unfold snapshotRegularFile, readCached, cacheDeferred.
  avoids_tac; apply snapshotFileMetadata_handles.
Qed.

Lemma snapshotLink_handles (p : Path) (info : FileInfo) :
  avoids handles_call (snapshotLink p info).
Proof. unfold snapshotLink. avoids_tac; apply snapshotFileMetadata_handles. Qed.

Ltac bal := cbn; first [apply balanced_quiet; reflexivity | unfold balanced; cbn; reflexivity].

Section Balance.
Variable rec : Path -> M (option Snap).
Hypothesis rec_balanced :
  forall (q : Path) (W : Type) (h : Handler Event W) (w : W),
    balanced (trace_of (run h (rec q) w)).

Lemma snapshotChildren_balanced {W : Type} (h : Handler Event W) (p : Path)
    (entries : list string) :
  forall (childHashes : Tree) (w : W),
    balanced (trace_of (run h (snapshotChildren rec p entries childHashes) w)).
Proof.
  unfold trace_of.
  induction entries as [| entry rest IH]; intros childHashes w; cbn [snapshotChildren].
  - bal.
  - rewrite run_bind.
    pose proof (rec_balanced (filepath_Join p entry) W h w) as Hrec. unfold trace_of in Hrec.
    destruct (run h (rec (filepath_Join p entry)) w) as [[r w1] t1]. cbn [snd] in Hrec.
    destruct r as [[[childHash f] err] |]; [| cbn; rewrite app_nil_r; exact Hrec].
    destruct (notNil err); [cbn; rewrite app_nil_r; exact Hrec |].
    match goal with
    | |- context [run h (snapshotChildren rec p rest ?t) w1] =>
        specialize (IH t w1); destruct (run h (snapshotChildren rec p rest t) w1)
          as [[r2 w2] t2]
    end.
    cbn [snd] in *. apply balanced_app; assumption.
Qed.

Lemma snapshotDirectory_balanced {W : Type} (h : Handler Event W) (w : W)
    (p : Path) (info : FileInfo) (contents : Handle) :
  balanced (trace_of (run h (snapshotDirectory rec p info contents) w)).
Proof.
  unfold trace_of, snapshotDirectory. rewrite run_bind, run_call.
  destruct (h _ (ReadDir contents 0) w) as [[entries err] w1]. cbn [fst snd].
  destruct (notNil err); [bal |].
  rewrite run_bind.
  pose proof (snapshotChildren_balanced h p entries ∅ w1) as Hloop. unfold trace_of in Hloop.
  destruct (run h (snapshotChildren rec p entries ∅) w1) as [[children w2] t2].
  cbn [snd] in Hloop.
  assert (Hhead : balanced ([Ent (ReadDir contents 0) (entries, err)] ++ t2)).
  { apply balanced_app; [bal | exact Hloop]. }
  destruct children as [[childHashes | e] |]; cbn [run];
    try (rewrite app_nil_r; exact Hhead).
  rewrite run_bind, run_call.
  match goal with
  | |- context [h _ ?e w2] => destruct (h _ e w2) as [[contentsHash err2] w3]
  end.
  cbn [fst snd]. rewrite run_bind.
  pose proof (avoids_run handles_call h _ w3
                (snapshotFileMetadata_handles p info contentsHash)) as Hmeta.
  destruct (run h (snapshotFileMetadata p info contentsHash) w3) as [[r w4] t4].
  cbn [snd run] in *. rewrite app_nil_r.
  rewrite (app_assoc [_] t2). apply balanced_app; [exact Hhead |].
  apply balanced_app; [bal | apply balanced_quiet; exact Hmeta].
Qed.

Lemma Current_body_balanced {W : Type} (h : Handler Event W) (w : W) (p : Path) :
  balanced (trace_of (run h (Current_body rec p) w)).
Proof.
  unfold trace_of, Current_body. rewrite run_bind, run_call.
  destruct (h _ (Exclude p) w) as [excluded w1]. cbn [fst snd].
  destruct excluded; [bal |].
  rewrite run_bind, run_call.
  destruct (h _ (Lstat p) w1) as [stat w2]. cbn [fst snd].
  destruct stat as [stat | e]; [| destruct (notExist e); bal].
  destruct (negb (Z.land (fi_Mode stat) ModeSymlink =? 0)).
  { rewrite run_bind.
    pose proof (avoids_run handles_call h _ w2 (snapshotLink_handles p stat)) as Hlink.
    destruct (run h (snapshotLink p stat) w2) as [[r w3] t3]. cbn [snd run] in *.
    rewrite app_nil_r. apply balanced_quiet. cbn. exact Hlink. }
  rewrite run_bind, run_call.
  destruct (h _ (Open p) w2) as [opened_file w3]. cbn [fst snd].
  destruct opened_file as [contents | e]; [| destruct (notExist e); bal].
  rewrite run_bind.
  match goal with
  | |- context [run h ?m w3] => assert (Hm : balanced (trace_of (run h m w3)))
  end.
  { unfold trace_of. rewrite run_bind, run_call.
    destruct (h _ (Stat contents) w3) as [info w4]. cbn [fst snd].
    destruct info as [info | e]; [| bal].
    destruct (fi_IsDir info).
    - pose proof (snapshotDirectory_balanced h w4 p info contents) as Hdir.
      unfold trace_of in Hdir.
      destruct (run h (snapshotDirectory rec p info contents) w4) as [[r w5] t5].
      cbn [snd] in *. apply (balanced_app [_]); [bal | exact Hdir].
    - rewrite run_bind.
      pose proof (avoids_run handles_call h _ w4
                    (snapshotRegularFile_handles p info contents)) as Hreg.
      destruct (run h (snapshotRegularFile p info contents) w4) as [[r w5] t5].
      cbn [snd run] in *. rewrite app_nil_r.
      apply (balanced_app [_]); [bal | apply balanced_quiet; exact Hreg]. }
  unfold trace_of in Hm.
  match goal with
  | |- context [run h ?m w3] => destruct (run h m w3) as [[a w4] t4]
  end.
  cbn [snd] in Hm. cbn [run bind call].
  destruct (h _ (Close contents) w4) as [cerr w5]. cbn.
  unfold balanced in Hm |- *. cbn. rewrite !answers_app. cbn.
  rewrite Hm, app_nil_r. symmetry. apply Permutation_cons_append.
Qed.

End Balance.

(** X1 (handles are closed).
    Whatever the file system and the storage answer, and whatever the
    fuel, every file that [Current] opens it also closes: the handles
    closed in a run are those that [os.Open] returned, each as often as it
    was returned.  This covers every early return, the recursion into
    directories and a run that is cut short for want of fuel. *)
Theorem Current_closes_what_it_opens (fuel : nat) :
  forall (p : Path) (W : Type) (h : Handler Event W) (w : W),
    balanced (trace_of (run h (Current fuel p) w)).
Proof.
  induction fuel as [| n IH]; intros p W h w; cbn [Current];
    apply Current_body_balanced.
  - intros q W' h' w'. bal.
  - exact IH.
Qed.

Lemma snapshotFileMetadata_leaves (p : Path) (info : FileInfo) (c : option Hash) :
  leaves error_means_nothing (snapshotFileMetadata p info c).
Proof. unfold snapshotFileMetadata, error_means_nothing. leaves_tac. Qed.

Lemma snapshotRegularFile_leaves (p : Path) (info : FileInfo) (contents : Handle) :
  leaves error_means_nothing (snapshotRegularFile p info contents).
Proof.
  unfold snapshotRegularFile. apply leaves_bind. intros now. apply leaves_bind.
  intros [[cachedHash cachedFile] ok]. destruct ok; [cbn; discriminate |].
  apply (leaves_bind_with error_means_nothing).
  - apply leaves_bind. intros [hh err]. destruct (notNil err).
    + cbn. auto.
    + apply snapshotFileMetadata_leaves.
  - intros res Hres. apply leaves_bind. intros _. exact Hres.
Qed.

Lemma snapshotLink_leaves (p : Path) (info : FileInfo) :
  leaves error_means_nothing (snapshotLink p info).
Proof.
  unfold snapshotLink. apply leaves_bind. intros [target err].
  destruct (notNil err); [cbn; auto |].
  apply leaves_bind. intros [hh err2]. destruct (notNil err2); [cbn; auto |].
  apply snapshotFileMetadata_leaves.
Qed.

Lemma snapshotDirectory_leaves (rec : Path -> M (option Snap)) (p : Path)
    (info : FileInfo) (contents : Handle) :
  leaves error_means_nothing_opt (snapshotDirectory rec p info contents).
Proof.
  unfold snapshotDirectory. apply leaves_bind. intros [entries err].
  destruct (notNil err); [cbn; auto |].
  apply leaves_bind. intros [[childHashes | e] |]; [| cbn; auto | exact I].
  apply leaves_bind. intros [contentsHash err2].
  apply (leaves_bind_with error_means_nothing);
    [apply snapshotFileMetadata_leaves | intros r Hr; exact Hr].
Qed.

Lemma Current_body_leaves (rec : Path -> M (option Snap)) (p : Path) :
  leaves error_means_nothing_opt (Current_body rec p).
Proof.
  unfold Current_body. apply leaves_bind. intros excluded.
  destruct excluded; [cbn; discriminate |].
  apply leaves_bind. intros [stat | e]; [| destruct (notExist e); cbn; auto; discriminate].
  destruct (negb (Z.land (fi_Mode stat) ModeSymlink =? 0)).
  { apply (leaves_bind_with error_means_nothing);
      [apply snapshotLink_leaves | intros r Hr; exact Hr]. }
  apply leaves_bind. intros [contents | e]; [| destruct (notExist e); cbn; auto; discriminate].
  apply (leaves_bind_with error_means_nothing_opt).
  - apply leaves_bind. intros [info | e]; [| cbn; auto].
    destruct (fi_IsDir info); [apply snapshotDirectory_leaves |].
    apply (leaves_bind_with error_means_nothing);
      [apply snapshotRegularFile_leaves | intros r Hr; exact Hr].
  - intros r Hr. apply leaves_bind. intros _. exact Hr.
Qed.

(** X2 (no snapshot with an error).
    [Current] never returns a snapshot together with an error: in every
    run, for every fuel, a result with an error has a nil hash and a nil
    File. *)
Theorem Current_error_means_nothing {W : Type} (h : Handler Event W) (w : W)
    (fuel : nat) (p : Path) (hh : option Hash) (f : option File) (err : error) :
  result_of (run h (Current fuel p) w) = Some (hh, f, Some err) ->
  hh = None /\ f = None.
Proof.
  intros Hrun.
  pose proof (leaves_run error_means_nothing_opt h (Current fuel p) w) as Hleaf.
  rewrite Hrun in Hleaf. apply Hleaf; [| reflexivity].
  destruct fuel; apply Current_body_leaves.
Qed.

Lemma Current_error_means_nothing_witness :
  result_of (run (scenario sc_unreadable) (Current 0 "/t/f") tt)
  = Some (None, None,
          Some (Errorf ("failure reading the file stat for " +:+ quote "/t/f"
                        +:+ ": " +:+ Error io_error)))
  /\ (@None Hash = None /\ @None File = None).
Proof.
  split; [reflexivity |].
  apply (Current_error_means_nothing (scenario sc_unreadable) tt 0 "/t/f" None None
           (Errorf ("failure reading the file stat for " +:+ quote "/t/f"
                    +:+ ": " +:+ Error io_error))).
  reflexivity.
Defined.

(** X3 (the cache saves the read).
    The contents of a regular file are handed to [StoreObject] in every
    run of [snapshotRegularFile] but one: the cache vouches for the path
    and the previous snapshot is found without error.  That run makes three
    calls, the clock, the cache and the lookup, and returns what the lookup
    found. *)
Theorem contents_read_unless_cached {W : Type} (h : Handler Event W) (w : W)
    (p : Path) (info : FileInfo) (contents : Handle) :
  let '(res, _, tr) := run h (snapshotRegularFile p info contents) w in
  existsb is_StoreObject tr = false <->
  exists now cachedHash cachedFile,
    tr = [Ent timeNow now; Ent (PathInfoMatchesCache p info) true;
          Ent (FindSnapshot p) (cachedHash, cachedFile, None)]
    /\ res = (cachedHash, cachedFile, None).
Proof.
  unfold snapshotRegularFile. rewrite run_bind, run_call.
  destruct (h _ timeNow w) as [now w0]. cbn [fst snd]. rewrite run_bind.
  pose proof (avoids_run is_StoreObject h _ w0
                (SnapshotFacts.readCached_stores_nothing p info)) as Hquiet.
  assert (Hhit : forall ch cf w1 t,
             run h (readCached p info) w0 = ((ch, cf, true), w1, t) ->
             t = [Ent (PathInfoMatchesCache p info) true;
                  Ent (FindSnapshot p) (ch, cf, None)]).
  { unfold readCached. cbn.
    destruct (h _ (PathInfoMatchesCache p info) w0) as [matches w1].
    destruct matches; cbn; [| discriminate].
    destruct (h _ (FindSnapshot p) w1) as [[[ch cf] err] w2].
    destruct err; cbn; [discriminate |]. intros ? ? ? ? [= <- <- _ <-]. reflexivity. }
  destruct (run h (readCached p info) w0) as [[[[ch cf] ok] w1] t1].
  cbn [snd] in Hquiet. destruct ok.
  - rewrite (Hhit ch cf w1 t1 eq_refl). cbn. split; [| reflexivity].
    intros _. exists now, ch, cf. auto.
  - clear Hhit.
    match goal with
    | |- context [run h (bind (bind (call ?e) ?f) ?g) w1] =>
        destruct (first_call h e f g w1) as (x & t' & Hfirst);
        destruct (run h (bind (bind (call e) f) g) w1) as [[r w2] t2]
    end.
    cbn [snd] in Hfirst. subst t2.
    assert (Hstored : existsb is_StoreObject
              ([Ent timeNow now] ++ t1
                 ++ Ent (StoreObject (fi_Size info) (FromFile contents)) x :: t') = true).
    { cbn. rewrite existsb_app. cbn. rewrite orb_true_r. reflexivity. }
    rewrite Hstored. split; [discriminate |].
    intros (now' & ch' & cf' & Htr & _). rewrite Htr in Hstored. discriminate Hstored.
Qed.

Lemma readCached_stores_no_snapshot (p : Path) (info : FileInfo) :
  avoids storage_write (readCached p info).
Proof. unfold readCached. avoids_tac. Qed.

(** X4 (a failed store writes nothing).
    When the contents of a regular file cannot be stored, the snapshot
    fails with that error and the storage is not written: the failed
    [StoreObject] is the only write attempted, so neither the latest
    snapshot of the path nor the cached path information changes. *)
Theorem failed_store_writes_nothing {W : Type} (h : Handler Event W) (w : W)
    (p : Path) (info : FileInfo) (contents : Handle)
    (hh : option Hash) (e : error) :
  let '(res, _, tr) := run h (snapshotRegularFile p info contents) w in
  answers answer_StoreObject tr = [(hh, Some e)] ->
  res = (None, None, Some (Errorf ("failure storing an object: " +:+ Error e)))
  /\ List.filter storage_write tr
     = [Ent (StoreObject (fi_Size info) (FromFile contents)) (hh, Some e)].
Proof.
  unfold snapshotRegularFile. rewrite run_bind, run_call.
  destruct (h _ timeNow w) as [now w0]. cbn [fst snd]. rewrite run_bind.
  pose proof (avoids_run is_StoreObject h _ w0
                (SnapshotFacts.readCached_stores_nothing p info)) as Hquiet.
  pose proof (avoids_run storage_write h _ w0 (readCached_stores_no_snapshot p info))
    as Hwrites.
  destruct (run h (readCached p info) w0) as [[[[ch cf] ok] w1] t1].
  cbn [snd] in Hquiet, Hwrites.
  assert (Hnone : answers answer_StoreObject t1 = []).
  { clear - Hquiet. induction t1 as [| en t IH]; [reflexivity |].
    cbn in Hquiet. apply orb_false_iff in Hquiet. destruct Hquiet as [Hen Ht].
    destruct en as [X ev x]. destruct ev; cbn in *; try discriminate; auto. }
  assert (Hfilter : List.filter storage_write t1 = []).
  { clear - Hwrites. induction t1 as [| en t IH]; [reflexivity |].
    cbn in Hwrites. apply orb_false_iff in Hwrites. destruct Hwrites as [Hen Ht].
    cbn. rewrite Hen. auto. }
  destruct ok.
  { cbn. rewrite app_nil_r, Hnone. discriminate. }
  rewrite run_bind, run_bind, run_call.
  destruct (h _ (StoreObject (fi_Size info) (FromFile contents)) w1) as [[hh' err] w2].
  cbn [fst snd]. destruct err as [e'|]; cbn [notNil isNil negb run].
  - cbn. rewrite !answers_app, Hnone. cbn. intros [= -> ->].
    split; [reflexivity |].
    rewrite List.filter_app, Hfilter. reflexivity.
  - assert (Hmeta : avoids is_StoreObject (snapshotFileMetadata p info hh'))
      by (unfold snapshotFileMetadata; avoids_tac).
    apply (avoids_run is_StoreObject h _ w2) in Hmeta.
    destruct (run h (snapshotFileMetadata p info hh') w2) as [[r w3] t3].
    cbn [snd] in Hmeta. rewrite run_bind.
    assert (Hdef : avoids is_StoreObject (cacheDeferred p info (Truncate now Second) r))
      by (unfold cacheDeferred; avoids_tac).
    apply (avoids_run is_StoreObject h _ w3) in Hdef.
    destruct (run h (cacheDeferred p info (Truncate now Second) r) w3) as [[u w4] t4].
    cbn [snd run] in *. rewrite !answers_app, Hnone. cbn.
    intros [=].
Qed.

Lemma failed_store_writes_nothing_witness :
  result_of (run (scenario sc_failing_store) (snapshotRegularFile "/t/f" info_f 3) tt)
  = (None, None, Some (Errorf ("failure storing an object: " +:+ Error io_error))).
Proof.
  pose proof (failed_store_writes_nothing (scenario sc_failing_store) tt "/t/f" info_f 3
                None io_error) as Hfail.
  unfold result_of.
  destruct (run (scenario sc_failing_store) (snapshotRegularFile "/t/f" info_f 3) tt)
    as [[res u] tr] eqn:E.
  vm_compute in E. injection E as <- _ <-.
  apply Hfail. reflexivity.
Defined.

Lemma snapshotLink_follows_nothing (p : Path) (info : FileInfo) :
  avoids follows_path (snapshotLink p info).
Proof. unfold snapshotLink, snapshotFileMetadata. avoids_tac. Qed.

(** X5 (links are not followed).
    A symbolic link is snapshotted without being followed: when [Lstat]
    shows the path to be a link, [Current] opens nothing, reads no file or
    directory and hands no file to the storage, and it returns a result
    whatever the fuel. *)
Theorem symlinks_are_not_followed {W : Type} (h : Handler Event W) (w w1 w2 : W)
    (fuel : nat) (p : Path) (stat : FileInfo) :
  h _ (Exclude p) w = (false, w1) ->
  h _ (Lstat p) w1 = (Ok stat, w2) ->
  Z.land (fi_Mode stat) ModeSymlink <> 0 ->
  let '(r, _, tr) := run h (Current fuel p) w in
  r <> None /\ existsb follows_path tr = false.
Proof.
  intros Hex Hls Hlink.
  assert (Hbody : forall rec,
             let '(r, _, tr) := run h (Current_body rec p) w in
             r <> None /\ existsb follows_path tr = false).
  { intros rec. unfold Current_body.
    rewrite run_bind, run_call, Hex. cbn [fst snd].
    rewrite run_bind, run_call, Hls. cbn [fst snd].
    destruct (Z.eqb_spec (Z.land (fi_Mode stat) ModeSymlink) 0) as [Heq | _];
      [contradiction |]. cbn [negb]. rewrite run_bind.
    pose proof (avoids_run follows_path h _ w2 (snapshotLink_follows_nothing p stat))
      as Hquiet.
    destruct (run h (snapshotLink p stat) w2) as [[r w3] t3]. cbn [snd run] in *.
    split; [discriminate |]. cbn. rewrite app_nil_r. exact Hquiet. }
  destruct fuel; cbn [Current]; apply Hbody.
Qed.

Lemma symlinks_are_not_followed_witness :
  result_of (run (scenario sc_link) (Current 0 "/t/l") tt) <> None
  /\ existsb follows_path (trace_of (run (scenario sc_link) (Current 0 "/t/l") tt)) = false.
Proof.
  pose proof (symlinks_are_not_followed (scenario sc_link) tt tt tt 0 "/t/l" info_l
                eq_refl eq_refl ltac:(vm_compute; discriminate)) as Hlink.
  unfold result_of, trace_of.
  destruct (run (scenario sc_link) (Current 0 "/t/l") tt) as [[r u] tr].
  exact Hlink.
Defined.

Lemma tree_of_names (entries : list string) :
  forall (children : list (option Hash)) (childHashes : Tree) (name : string),
    name ∈ dom (tree_of childHashes entries children) ->
    name ∈ dom childHashes \/ name ∈ entries.
Proof.
  unfold tree_of.
  induction entries as [| entry rest IH]; intros children childHashes name; cbn.
  - auto.
  - destruct children as [| c cs]; cbn; [auto |].
    intros Hin. apply IH in Hin. destruct Hin as [Hin | Hin].
    + unfold add_child in Hin. cbn in Hin. destruct c as [c|]; [| auto].
      rewrite dom_insert_L in Hin. apply elem_of_union in Hin.
      destruct Hin as [Hin | Hin]; [| auto].
      apply elem_of_singleton in Hin. subst. right. left.
    + right. right. exact Hin.
Qed.

(** X6 (the tree of a directory).
    The tree that the loop of [snapshotDirectory] builds holds exactly what
    the snapshots of the entries returned: when the loop ends without an
    error, every entry was snapshotted without an error, an entry whose
    snapshot has a hash is in the tree under its own name with that hash, an
    entry whose snapshot is nil (excluded, or gone in the meantime) is left
    out, and the tree names nothing but entries of the directory. *)
Theorem directory_tree_holds_its_entries {W : Type} (h : Handler Event W)
    (rec : Path -> M (option Snap)) (p : Path) (entries : list string) :
  forall (childHashes tree : Tree) (w w' : W) (tr : list (Entry Event)),
    run h (snapshotChildren rec p entries childHashes) w = (Some (inl tree), w', tr) ->
    exists children,
      Forall2 (fun entry c =>
                 exists w1 f,
                   result_of (run h (rec (filepath_Join p entry)) w1) = Some (c, f, None))
              entries children
      /\ tree = tree_of childHashes entries children
      /\ (forall name, name ∈ dom tree -> name ∈ dom childHashes \/ name ∈ entries).
Proof.
  induction entries as [| entry rest IH]; intros childHashes tree w w' tr; cbn [snapshotChildren].
  - cbn. intros [= <- _ _]. exists []. split; [constructor |]. split; [reflexivity | auto].
  - rewrite run_bind.
    destruct (run h (rec (filepath_Join p entry)) w) as [[r w1] t1] eqn:Hchild.
    destruct r as [[[c f] err] |]; [| cbn; discriminate].
    destruct err as [e|]; cbn [notNil isNil negb]; [cbn; discriminate |].
    match goal with
    | |- context [run h (snapshotChildren rec p rest ?t) w1] =>
        specialize (IH t tree w1);
        destruct (run h (snapshotChildren rec p rest t) w1) as [[r2 w2] t2] eqn:Hrest
    end.
    intros Heq. injection Heq as Hr _ _. subst r2.
    destruct (IH w2 t2 eq_refl) as (children & Hall & Htree & _).
    exists (c :: children). split; [| split].
    + constructor; [| exact Hall]. exists w, f. unfold result_of. rewrite Hchild. reflexivity.
    + rewrite Htree. reflexivity.
    + intros name. rewrite Htree.
      change (name ∈ dom (tree_of childHashes (entry :: rest) (c :: children)) ->
              name ∈ dom childHashes \/ name ∈ entry :: rest).
      apply tree_of_names.
Qed.

(** X7 (the first failing entry).
    The loop of [snapshotDirectory] stops at the first entry whose snapshot
    fails: the error returned names the path of that entry and carries its
    error, and the entries after it are not visited (the run consists of
    the runs of the entries before it and of its own). *)
Theorem first_failing_child_aborts {W : Type} (h : Handler Event W)
    (rec : Path -> M (option Snap)) (p : Path) (before after : list string)
    (entry : string) :
  forall (childHashes tree : Tree) (w w1 w2 : W) (tr1 tr2 : list (Entry Event))
         (c : option Hash) (f : option File) (e : error),
    run h (snapshotChildren rec p before childHashes) w = (Some (inl tree), w1, tr1) ->
    run h (rec (filepath_Join p entry)) w1 = (Some (c, f, Some e), w2, tr2) ->
    run h (snapshotChildren rec p (before ++ entry :: after) childHashes) w
    = (Some (inr (child_error (filepath_Join p entry) e)), w2, tr1 ++ tr2).
Proof.
  induction before as [| b rest IH];
    intros childHashes tree w w1 w2 tr1 tr2 c f e; cbn [snapshotChildren app].
  - cbn. intros [= _ <- <-] Hchild. rewrite run_bind, Hchild. cbn.
    rewrite app_nil_r. reflexivity.
  - rewrite !run_bind.
    destruct (run h (rec (filepath_Join p b)) w) as [[r w0] t0].
    destruct r as [[[c0 f0] err0] |]; [| cbn; discriminate].
    destruct err0 as [e0|]; cbn [notNil isNil negb]; [cbn; discriminate |].
    match goal with
    | |- context [run h (snapshotChildren rec p rest ?t) w0] =>
        specialize (IH t tree w0 w1 w2);
        destruct (run h (snapshotChildren rec p rest t) w0) as [[r2 w3] t3] eqn:Hrest
    end.
    intros Heq Hchild. injection Heq as Hr Hw Ht. subst r2 w3 tr1.
    rewrite (IH t3 tr2 c f e eq_refl Hchild). rewrite app_assoc. reflexivity.
Qed.

Lemma directory_tree_holds_its_entries_witness :
  exists children,
    Forall2 (fun entry c =>
               exists w1 f,
                 result_of (run (scenario sc_known) (Current 0 (filepath_Join "/t/d" entry)) w1)
                 = Some (c, f, None))
            ["a"; "b"] children
    /\ <["b" := hash_b]> (<["a" := hash_b]> ∅) = tree_of ∅ ["a"; "b"] children
    /\ (forall name,
          name ∈ dom (<["b" := hash_b]> (<["a" := hash_b]> (∅ : Tree))) ->
          name ∈ dom (∅ : Tree) \/ name ∈ ["a"; "b"]).
Proof.
  apply (directory_tree_holds_its_entries (scenario sc_known) (Current 0) "/t/d"
           ["a"; "b"] ∅ (<["b" := hash_b]> (<["a" := hash_b]> ∅)) tt tt
           (trace_of (run (scenario sc_known)
                        (snapshotChildren (Current 0) "/t/d" ["a"; "b"] ∅) tt))).
  vm_compute. reflexivity.
Defined.

Lemma first_failing_child_aborts_witness :
  result_of (run (scenario sc_unreadable)
               (snapshotChildren (Current 0) "/t/d" ([] ++ "a" :: ["b"]) ∅) tt)
  = Some (inr (child_error "/t/d/a"
                 (Errorf ("failure reading the file stat for " +:+ quote "/t/d/a"
                          +:+ ": " +:+ Error io_error)))).
Proof.
  rewrite (first_failing_child_aborts (scenario sc_unreadable) (Current 0) "/t/d"
             [] ["b"] "a" ∅ ∅ tt tt tt []
             (trace_of (run (scenario sc_unreadable) (Current 0 "/t/d/a") tt))
             None None
             (Errorf ("failure reading the file stat for " +:+ quote "/t/d/a"
                      +:+ ": " +:+ Error io_error))
             eq_refl eq_refl).
  reflexivity.
Defined.

End SnapshotMore.

(** ** More about package merge *)

Module MergeMore.
Import Merge MergeCalls.

Lemma IsAncestor_only_reads (base hh : option Hash) : avoids acts (IsAncestor base hh).
Proof. unfold IsAncestor. avoids_tac. Qed.

(** A run of [mergeWithBase] in which the records of the source and of the
    destination were read without error, and that of the base too when
    there is a base or the run succeeded, consists of reads of logs and records followed by a
    run of [afterReading] on what was read. *)
Lemma mergeWithBase_reads {W : Type} (h : Handler Event W) (w w' : W) (fuel : nat)
    (subPath : Path) (base src dest : option Hash) (forceKeepMode : bool)
    (r : Outcome Merged) (tr : list (Entry Event)) (sf df : option File)
    (rest : list (option File * option error)) :
  run h (mergeWithBase fuel subPath base src dest forceKeepMode) w = (r, w', tr) ->
  answers answer_ReadSnapshot tr = (sf, None) :: (df, None) :: rest ->
  (base = None \/ (exists bf rest', rest = (bf, None) :: rest') \/ merged_ok r) ->
  exists baseFile w5 t0 t6,
    run h (afterReading (children_of fuel forceKeepMode) subPath base src dest
             baseFile sf df forceKeepMode) w5 = (r, w', t6)
    /\ tr = t0 ++ t6 /\ existsb acts t0 = false.
Proof.
  intros Hrun Hans Hbase.
  rewrite MergeFacts.mergeWithBase_unfold in Hrun. unfold mergeWithBase_body in Hrun.
  destruct (Hash_Equal src dest);
    [cbn in Hrun; injection Hrun as _ _ <-; discriminate Hans |].
  destruct (Hash_Equal src base);
    [cbn in Hrun; injection Hrun as _ _ <-; discriminate Hans |].
  destruct (Hash_Equal dest base);
    [cbn in Hrun; injection Hrun as _ _ <-; discriminate Hans |].
  destruct (isNil src || isNil dest);
    [cbn in Hrun; injection Hrun as _ _ <-; discriminate Hans |].
  rewrite run_bind in Hrun.
  pose proof (avoids_run is_ReadSnapshot h _ w
                (MergeFacts.IsAncestor_reads_no_snapshot base src)) as Hq1.
  pose proof (avoids_run acts h _ w (IsAncestor_only_reads base src)) as Ha1.
  destruct (run h (IsAncestor base src) w) as [[[anc1 e1] w1] t1].
  apply MergeFacts.no_ReadSnapshot_answers in Hq1. cbn [snd] in Hq1, Ha1.
  destruct e1; cbn [notNil isNil negb run] in Hrun;
    [injection Hrun as _ _ <-; rewrite answers_app, Hq1 in Hans; discriminate Hans |].
  destruct anc1; cbn [negb run] in Hrun;
    [| injection Hrun as _ _ <-; rewrite answers_app, Hq1 in Hans; discriminate Hans].
  rewrite run_bind in Hrun.
  pose proof (avoids_run is_ReadSnapshot h _ w1
                (MergeFacts.IsAncestor_reads_no_snapshot base dest)) as Hq2.
  pose proof (avoids_run acts h _ w1 (IsAncestor_only_reads base dest)) as Ha2.
  destruct (run h (IsAncestor base dest) w1) as [[[anc2 e2] w2] t2].
  apply MergeFacts.no_ReadSnapshot_answers in Hq2. cbn [snd] in Hq2, Ha2.
  destruct e2; cbn [notNil isNil negb run] in Hrun;
    [injection Hrun as _ _ <-; rewrite !answers_app, Hq1, Hq2 in Hans; discriminate Hans |].
  destruct anc2; cbn [negb run] in Hrun;
    [| injection Hrun as _ _ <-; rewrite !answers_app, Hq1, Hq2 in Hans; discriminate Hans].
  rewrite run_bind, run_call in Hrun.
  destruct (h _ (ReadSnapshot src) w2) as [[srcFile e3] w3]. cbn [fst snd] in Hrun.
  destruct e3; cbn [notNil isNil negb run] in Hrun;
    [injection Hrun as _ _ <-; rewrite !answers_app, Hq1, Hq2 in Hans; discriminate Hans |].
  rewrite run_bind, run_call in Hrun.
  destruct (h _ (ReadSnapshot dest) w3) as [[destFile e4] w4]. cbn [fst snd] in Hrun.
  destruct e4; cbn [notNil isNil negb run] in Hrun;
    [injection Hrun as _ _ <-; rewrite !answers_app, Hq1, Hq2 in Hans; discriminate Hans |].
  destruct base as [b|]; cbn [notNil isNil negb] in Hrun.
  - rewrite run_bind, run_call in Hrun.
    destruct (h _ (ReadSnapshot (Some b)) w4) as [[baseFile e5] w5]. cbn [fst snd] in Hrun.
    destruct e5 as [e|]; cbn [notNil isNil negb run] in Hrun.
    + exfalso. injection Hrun as <- _ <-.
      rewrite !answers_app, Hq1, Hq2 in Hans. cbn in Hans.
      injection Hans as _ _ Hrest.
      destruct Hbase as [? | [(bf0 & rest' & Hr) | Hok]]; [discriminate | | exact Hok].
      rewrite Hr in Hrest. discriminate Hrest.
    + match type of Hrun with
      | context [run h ?m w5] =>
          change m with (afterReading (children_of fuel forceKeepMode) subPath (Some b) src dest
                           baseFile srcFile destFile forceKeepMode) in Hrun
      end.
      destruct (run h (afterReading (children_of fuel forceKeepMode) subPath (Some b) src dest
                         baseFile srcFile destFile forceKeepMode) w5) as [[r6 w6] t6] eqn:Hafter.
      injection Hrun as -> -> <-.
      rewrite !answers_app, Hq1, Hq2 in Hans. cbn in Hans. injection Hans as -> -> _.
      exists baseFile, w5,
        (t1 ++ t2 ++ [Ent (ReadSnapshot src) (sf, None)]
            ++ [Ent (ReadSnapshot dest) (df, None)]
            ++ [Ent (ReadSnapshot (Some b)) (baseFile, None)]), t6.
      split; [exact Hafter |]. split.
      * rewrite <- !app_assoc. reflexivity.
      * rewrite !existsb_app, Ha1, Ha2. reflexivity.
  - cbn [bind] in Hrun.
    match type of Hrun with
    | context [run h ?m w4] =>
        change m with (afterReading (children_of fuel forceKeepMode) subPath None src dest
                         None srcFile destFile forceKeepMode) in Hrun
    end.
    destruct (run h (afterReading (children_of fuel forceKeepMode) subPath None src dest
                       None srcFile destFile forceKeepMode) w4) as [[r6 w6] t6] eqn:Hafter.
    injection Hrun as -> -> <-.
    rewrite !answers_app, Hq1, Hq2 in Hans. cbn in Hans. injection Hans as -> -> _.
    exists None, w4,
      (t1 ++ t2 ++ [Ent (ReadSnapshot src) (sf, None)]
          ++ [Ent (ReadSnapshot dest) (df, None)]), t6.
    split; [exact Hafter |]. split.
    + rewrite <- !app_assoc. reflexivity.
    + rewrite !existsb_app, Ha1, Ha2. reflexivity.
Qed.


(** X8 (ancestry).
    [IsAncestor] never reads the log when the base is nil, and answers
    true.  Otherwise it reads the whole log of the other snapshot, once:
    when that fails it answers false with an error, and when it succeeds
    it answers, without an error, whether the base occurs in the log. *)
Theorem IsAncestor_membership {W : Type} (h : Handler Event W) (w : W)
    (base hh : option Hash) :
  let answer := h _ (ReadLog hh (-1)) w in
  let r := run h (IsAncestor base hh) w in
  match base with
  | None => r = ((true, None), w, [])
  | Some b =>
      trace_of r = [Ent (ReadLog hh (-1)) answer.1]
      /\ match answer.1.2 with
         | Some e => (result_of r).1 = false /\ exists e', (result_of r).2 = Some e'
         | None => ((result_of r).1 = true <-> Some b ∈ answer.1.1)
                   /\ (result_of r).2 = None
         end
  end.
Proof.
  cbv zeta. unfold IsAncestor, result_of, trace_of. destruct base as [b|]; [| reflexivity].
  cbn [isNil]. rewrite run_bind, run_call.
  destruct (h _ (ReadLog hh (-1)) w) as [[log err] w1]. cbn [fst snd].
  destruct err as [e|]; cbn [notNil isNil negb run fst snd].
  - split; [reflexivity |]. split; [reflexivity | eauto].
  - rewrite app_nil_r. split; [reflexivity |]. split; [| reflexivity].
    rewrite existsb_exists. split.
    + intros (x & Hin & Heq). apply Hash_Equal_eq in Heq. subst x.
      apply list_elem_of_In. exact Hin.
    + intros Hin. exists (Some b). split; [apply list_elem_of_In; exact Hin |].
      apply Hash_Equal_refl.
Qed.





(** A mode line that starts like that of a directory does not start like
    that of a symbolic link. *)
Lemma directory_is_no_link (f : option File) : File_IsDir f = true -> File_IsLink f = false.
Proof.
  destruct f as [f|]; [| reflexivity]. unfold File_IsDir, File_IsLink.
  destruct (Mode f) as [| a s]; [reflexivity |].
  cbn [String.prefix].
  destruct (Ascii.ascii_dec "d" a) as [<- | _]; [| discriminate].
  intros _. reflexivity.
Qed.

(** The end of the directory case fails when the mode lines differ and the
    mode of the source is not forced. *)
Lemma mergeDirectories_modes {W : Type} (h : Handler Event W) (w w' : W)
    (rec : Path -> option Hash -> option Hash -> option Hash -> M (Outcome Merged))
    (subPath : Path) (base src dest : option Hash)
    (baseFile : option File) (sf df : File)
    (hres : option Hash) (tr : list (Entry Event)) :
  run h (mergeDirectories rec subPath base src dest baseFile (Some sf) (Some df) false) w
  = (Done (hres, None), w', tr) ->
  Mode sf = Mode df.
Proof.
  unfold mergeDirectories. rewrite run_bind, run_call.
  destruct (h _ (ListDirectorySnapshotContents src (Some sf)) w) as [[srcTree e1] w1].
  cbn [fst snd]. destruct e1; cbn [notNil isNil negb run]; [discriminate |].
  rewrite run_bind, run_call.
  destruct (h _ (ListDirectorySnapshotContents dest (Some df)) w1) as [[destTree e2] w2].
  cbn [fst snd]. destruct e2; cbn [notNil isNil negb run]; [discriminate |].
  rewrite run_bind.
  destruct (run h (if File_IsDir baseFile
                   then call (ListDirectorySnapshotContents base baseFile)
                   else Ret (∅, None)) w2) as [[[baseTree e3] w3] t3].
  destruct e3; cbn [notNil isNil negb run]; [discriminate |].
  rewrite run_bind, run_call.
  destruct (h _ (mapRange (dom srcTree ∪ dom destTree)) w3) as [order w4].
  cbn [fst snd]. rewrite run_bind.
  destruct (run h (mergeChildren rec subPath baseTree srcTree destTree order ∅ []) w4)
    as [[children w5] t5].
  destruct children as [[mergedTree nestedErrors] | |]; cbn [run]; try discriminate.
  rewrite run_bind.
  destruct (decide (Mode sf = Mode df)) as [Heq | Hne]; [intros _; exact Heq |].
  rewrite (bool_decide_eq_false_2 _ Hne). cbn [negb andb].
  unfold storeMerged. rewrite bool_decide_eq_true_2 by (destruct nestedErrors; discriminate).
  cbn. discriminate.
Qed.

(** X11 (differing modes).
    Two directories whose mode lines differ are merged only when the mode
    of the source is forced: a merge that succeeds on two directories
    either was asked to keep the mode of the source or found the same mode
    line on both sides. *)
Theorem differing_modes_are_not_merged {W : Type} (h : Handler Event W) (w w' : W)
    (fuel : nat) (subPath : Path) (base src dest : option Hash) (forceKeepMode : bool)
    (hres : option Hash) (tr : list (Entry Event)) (sf df : File)
    (rest : list (option File * option error)) :
  run h (mergeWithBase fuel subPath base src dest forceKeepMode) w
  = (Done (hres, None), w', tr) ->
  answers answer_ReadSnapshot tr = (Some sf, None) :: (Some df, None) :: rest ->
  File_IsDir (Some sf) = true ->
  File_IsDir (Some df) = true ->
  forceKeepMode = true \/ Mode sf = Mode df.
Proof.
  intros Hrun Hans Hsf Hdf.
  destruct forceKeepMode; [left; reflexivity | right].
  destruct (mergeWithBase_reads h w w' fuel subPath base src dest false _ tr (Some sf)
              (Some df) rest Hrun Hans) as (baseFile & w5 & t0 & t6 & Hafter & -> & Hquiet).
  { right. right. exact I. }
  unfold afterReading in Hafter.
  assert (Hlink : File_IsLink (Some sf) || File_IsLink (Some df) = false).
  { rewrite (directory_is_no_link _ Hsf), (directory_is_no_link _ Hdf). reflexivity. }
  rewrite Hlink, Hsf, Hdf in Hafter. cbn [negb andb] in Hafter.
  eapply mergeDirectories_modes. exact Hafter.
Qed.

Lemma differing_modes_are_not_merged_witness :
  exists hres tr,
    run (fixed (clean_answers sorted_order))
        (mergeWithBase 1 "/t/d" (Some (hash_of "base")) (Some (hash_of "src"))
           (Some (hash_of "dest")) false) tt = (Done (hres, None), tt, tr)
    /\ (false = true \/ Mode dir_file = Mode dir_file).
Proof.
  destruct (run (fixed (clean_answers sorted_order))
              (mergeWithBase 1 "/t/d" (Some (hash_of "base")) (Some (hash_of "src"))
                 (Some (hash_of "dest")) false) tt) as [[r u] tr] eqn:E.
  assert (Hr : r = Done (Some (hash_of "merged"), None))
    by (vm_compute in E; injection E as <- _ _; reflexivity).
  subst r. destruct u. exists (Some (hash_of "merged")), tr. split; [reflexivity |].
  apply (differing_modes_are_not_merged _ tt tt 1 "/t/d" (Some (hash_of "base"))
           (Some (hash_of "src")) (Some (hash_of "dest")) false (Some (hash_of "merged"))
           tr dir_file dir_file [(Some dir_file, None)] E).
  - vm_compute in E. injection E as <-. reflexivity.
  - reflexivity.
  - reflexivity.
Defined.


Lemma settled_child {W : Type} (h : Handler Event W) (w : W) (fuel : nat) (subPath : Path)
    (base src dest x : option Hash) (forceKeepMode : bool) :
  settled base src dest x ->
  run h (mergeWithBase fuel subPath base src dest forceKeepMode) w = (Done (x, None), w, []).
Proof.
  intros Hx. rewrite MergeFacts.mergeWithBase_unfold. unfold mergeWithBase_body.
  destruct (Hash_Equal src dest) eqn:E1.
  { apply Hash_Equal_eq in E1. subst dest.
    destruct Hx as [[_ ->] | [[_ ->] | [_ ->]]]; reflexivity. }
  apply Hash_Equal_neq in E1.
  destruct (Hash_Equal src base) eqn:E2.
  { apply Hash_Equal_eq in E2. subst base.
    destruct Hx as [[? _] | [[_ ->] | [? _]]]; [contradiction | reflexivity | congruence]. }
  apply Hash_Equal_neq in E2.
  destruct (Hash_Equal dest base) eqn:E3.
  { destruct Hx as [[? _] | [[? _] | [_ ->]]]; [contradiction | contradiction | reflexivity]. }
  apply Hash_Equal_neq in E3.
  destruct Hx as [[? _] | [[? _] | [? _]]]; contradiction.
Qed.

(** The loop over the children leaves the names it does not visit as they
    were in the merged tree, and gives every child that the two versions
    do not both change the hash of the trivial cases. *)
Lemma loop_settled {W : Type} (h : Handler Event W) (fuel : nat) (forceKeepMode : bool)
    (subPath : Path) (baseTree srcTree destTree : Tree) (ps : list Path) :
  forall (tree : Tree) (errs : list string) (w w' : W) (tr : list (Entry Event))
         (tree' : Tree) (errs' : list string),
    run h (mergeChildren (children_of fuel forceKeepMode) subPath baseTree srcTree destTree
             ps tree errs) w = (Done (tree', errs'), w', tr) ->
    (forall p, p ∉ ps -> tree' !! p = tree !! p)
    /\ (forall p x, p ∈ ps ->
          settled (baseTree !! p) (srcTree !! p) (destTree !! p) x ->
          tree !! p = None \/ tree !! p = x ->
          tree' !! p = x).
Proof.
  induction ps as [| q ps IH]; intros tree errs w w' tr tree' errs'.
  - cbn. intros [= <- _ _ _]. split; [reflexivity |].
    intros p x Hin. apply elem_of_nil in Hin. contradiction.
  - cbn [mergeChildren]. rewrite run_bind.
    destruct (run h (children_of fuel forceKeepMode (Path_Join subPath q)
                       (baseTree !! q) (srcTree !! q) (destTree !! q)) w)
      as [[r w1] t1] eqn:Hchild.
    destruct r as [[mc err] | |]; cbn [run]; [| discriminate | discriminate].
    match goal with
    | |- context [run h (mergeChildren _ _ _ _ _ ps ?t ?e) w1] =>
        destruct (run h (mergeChildren (children_of fuel forceKeepMode) subPath baseTree
                           srcTree destTree ps t e) w1) as [[r2 w2] t2] eqn:Hrest;
        specialize (IH t e w1 w2 t2)
    end.
    intros Heq. injection Heq as -> _ _. specialize (IH tree' errs' Hrest).
    destruct IH as [IHout IHin].
    assert (Hstep : forall p, p <> q ->
              match mc with Some c => <[q := c]> tree | None => tree end !! p = tree !! p).
    { intros p Hne. destruct mc; [apply lookup_insert_ne; congruence | reflexivity]. }
    split.
    + intros p Hnot. apply not_elem_of_cons in Hnot as [Hne Hnot].
      rewrite (IHout p Hnot). apply Hstep. exact Hne.
    + intros p x Hin Hx Htree.
      assert (Hq : p = q ->
                match mc with Some c => <[q := c]> tree | None => tree end !! p = None
                \/ match mc with Some c => <[q := c]> tree | None => tree end !! p = x).
      { intros ->. destruct fuel as [| n]; [cbn in Hchild; discriminate Hchild |].
        cbn [children_of] in Hchild.
        rewrite (settled_child h w n _ _ _ _ x forceKeepMode Hx) in Hchild.
        injection Hchild as <- _ _.
        destruct x as [c|]; [right; apply lookup_insert_eq | exact Htree]. }
      destruct (decide (p ∈ ps)) as [Hps | Hps].
      * apply (IHin p x Hps Hx).
        destruct (decide (p = q)) as [Hpq | Hpq]; [exact (Hq Hpq) |].
        rewrite (Hstep p Hpq). exact Htree.
      * apply elem_of_cons in Hin as [Hpq | Hin]; [| contradiction].
        rewrite (IHout p Hps).
        destruct (Hq Hpq) as [Hnone | Hsome]; [| exact Hsome].
        destruct (decide (p = q)) as [_ | Hne]; [| contradiction].
        subst p. destruct fuel as [| n]; [cbn in Hchild; discriminate Hchild |].
        cbn [children_of] in Hchild.
        rewrite (settled_child h w n _ _ _ _ x forceKeepMode Hx) in Hchild.
        injection Hchild as <- _ _.
        destruct x as [c|]; [rewrite lookup_insert_eq in Hnone; discriminate Hnone |].
        exact Hnone.
Qed.

(** The directory case, when it succeeds, call by call: the two trees are
    listed, then that of the base when the base is a directory, the names
    are put in an order, the children are merged, and the merged tree and
    the merged snapshot are stored. *)
Lemma mergeDirectories_calls {W : Type} (h : Handler Event W) (w w' : W)
    (rec : Path -> option Hash -> option Hash -> option Hash -> M (Outcome Merged))
    (subPath : Path) (base src dest : option Hash)
    (baseFile srcFile destFile : option File) (forceKeepMode : bool)
    (hres : option Hash) (tr : list (Entry Event)) :
  run h (mergeDirectories rec subPath base src dest baseFile srcFile destFile forceKeepMode) w
  = (Done (hres, None), w', tr) ->
  exists sf baseTree srcTree destTree order w4 w5 t3 t5 mergedTree contentsHash,
    srcFile = Some sf
    /\ run h (mergeChildren rec subPath baseTree srcTree destTree order ∅ []) w4
       = (Done (mergedTree, []), w5, t5)
    /\ (baseTree = ∅ /\ t3 = []
        \/ t3 = [Ent (ListDirectorySnapshotContents base baseFile) (baseTree, None)])
    /\ tr = [Ent (ListDirectorySnapshotContents src srcFile) (srcTree, None);
             Ent (ListDirectorySnapshotContents dest destFile) (destTree, None)]
            ++ t3 ++ [Ent (mapRange (dom srcTree ∪ dom destTree)) order] ++ t5
            ++ [Ent (store_tree mergedTree) (contentsHash, None);
                Ent (store_file {| Mode := Mode sf; Contents := contentsHash;
                                   Parents := [src; dest] |}) (hres, None)].
Proof.
  unfold mergeDirectories. rewrite run_bind, run_call.
  destruct (h _ (ListDirectorySnapshotContents src srcFile) w) as [[srcTree e1] w1].
  cbn [fst snd]. destruct e1; cbn [notNil isNil negb run]; [discriminate |].
  rewrite run_bind, run_call.
  destruct (h _ (ListDirectorySnapshotContents dest destFile) w1) as [[destTree e2] w2].
  cbn [fst snd]. destruct e2; cbn [notNil isNil negb run]; [discriminate |].
  rewrite run_bind.
  assert (Hbase : forall bt e3 w3 t3,
            run h (if File_IsDir baseFile
                   then call (ListDirectorySnapshotContents base baseFile)
                   else Ret (∅, None)) w2 = ((bt, e3), w3, t3) ->
            (bt = ∅ /\ t3 = [])
            \/ t3 = [Ent (ListDirectorySnapshotContents base baseFile) (bt, e3)]).
  { intros bt e3 w3 t3. destruct (File_IsDir baseFile).
    - rewrite run_call.
      destruct (h _ (ListDirectorySnapshotContents base baseFile) w2) as [[bt' e'] w3'].
      cbn. intros [= <- <- _ <-]. right. reflexivity.
    - cbn. intros [= <- _ _ <-]. left. auto. }
  destruct (run h (if File_IsDir baseFile
                   then call (ListDirectorySnapshotContents base baseFile)
                   else Ret (∅, None)) w2) as [[[baseTree e3] w3] t3].
  specialize (Hbase _ _ _ _ eq_refl).
  destruct e3; cbn [notNil isNil negb run]; [discriminate |].
  rewrite run_bind, run_call.
  destruct (h _ (mapRange (dom srcTree ∪ dom destTree)) w3) as [order w4].
  cbn [fst snd]. rewrite run_bind.
  destruct (run h (mergeChildren rec subPath baseTree srcTree destTree order ∅ []) w4)
    as [[children w5] t5] eqn:Hloop.
  destruct children as [[mergedTree nestedErrors] | |], srcFile as [sf|], destFile as [df|];
    cbn [run]; try discriminate.
  rewrite run_bind.
  match goal with
  | |- context [run h ?m w5] => destruct (run h m w5) as [[[hh err] w6] t6] eqn:Hstore
  end.
  cbn [run]. intros [= -> -> <- <-].
  apply MergeFacts.storeMerged_ok in Hstore. destruct Hstore as [Hnil (contentsHash & ->)].
  assert (nestedErrors = []) as ->.
  { destruct (negb (bool_decide (Mode sf = Mode df)) && negb forceKeepMode);
      [destruct nestedErrors; discriminate Hnil | exact Hnil]. }
  exists sf, baseTree, srcTree, destTree, order, w4, w5, t3, t5, mergedTree, contentsHash.
  split; [reflexivity |]. split; [exact Hloop |]. split; [exact Hbase |].
  cbn [app]. reflexivity.
Qed.

(** X12 (one-sided changes).
    A successful merge of two directories lists the tree of the source and
    that of the destination, takes the tree of the base (empty when the
    base is no directory), and stores a merged tree in which every name it
    visited that the two versions do not both change has the hash of the
    side that changed it: equal on both sides, that hash; unchanged in the
    source, the hash of the destination; unchanged in the destination, the
    hash of the source, a name that is missing on the side taken being
    missing in the merged tree.  A name that was not visited is not in the
    merged tree. *)
Theorem one_sided_changes_win {W : Type} (h : Handler Event W) (w w' : W) (fuel : nat)
    (subPath : Path) (base src dest : option Hash) (forceKeepMode : bool)
    (hres : option Hash) (tr : list (Entry Event)) (sf df : File)
    (rest : list (option File * option error)) :
  run h (mergeWithBase fuel subPath base src dest forceKeepMode) w
  = (Done (hres, None), w', tr) ->
  answers answer_ReadSnapshot tr = (Some sf, None) :: (Some df, None) :: rest ->
  File_IsDir (Some sf) = true ->
  File_IsDir (Some df) = true ->
  exists baseTree srcTree destTree order mergedTree contentsHash t0 t3 t5,
    tr = t0 ++ [Ent (ListDirectorySnapshotContents src (Some sf)) (srcTree, None);
                Ent (ListDirectorySnapshotContents dest (Some df)) (destTree, None)]
            ++ t3 ++ [Ent (mapRange (dom srcTree ∪ dom destTree)) order] ++ t5
            ++ [Ent (store_tree mergedTree) (contentsHash, None);
                Ent (store_file {| Mode := Mode sf; Contents := contentsHash;
                                   Parents := [src; dest] |}) (hres, None)]
    /\ (baseTree = ∅ /\ t3 = []
        \/ exists baseFile,
             t3 = [Ent (ListDirectorySnapshotContents base baseFile) (baseTree, None)])
    /\ forall p,
         (p ∉ order -> mergedTree !! p = None)
         /\ (p ∈ order ->
             (srcTree !! p = destTree !! p -> mergedTree !! p = srcTree !! p)
             /\ (srcTree !! p = baseTree !! p -> mergedTree !! p = destTree !! p)
             /\ (destTree !! p = baseTree !! p -> mergedTree !! p = srcTree !! p)).
Proof.
  intros Hrun Hans Hsf Hdf.
  destruct (mergeWithBase_reads h w w' fuel subPath base src dest forceKeepMode _ tr
              (Some sf) (Some df) rest Hrun Hans)
    as (baseFile & w5 & t0 & t6 & Hafter & -> & Hquiet).
  { right. right. exact I. }
  unfold afterReading in Hafter.
  rewrite (directory_is_no_link _ Hsf), (directory_is_no_link _ Hdf), Hsf, Hdf in Hafter.
  cbn [negb andb orb] in Hafter.
  apply mergeDirectories_calls in Hafter.
  destruct Hafter as (sf' & baseTree & srcTree & destTree & order & w4 & w6 & t3 & t5
                      & mergedTree & contentsHash & Hsf' & Hloop & Hbase & ->).
  injection Hsf' as <-.
  exists baseTree, srcTree, destTree, order, mergedTree, contentsHash, t0, t3, t5.
  split; [reflexivity |]. split.
  { destruct Hbase as [? | ->]; [left; assumption | right; eauto]. }
  apply loop_settled in Hloop. destruct Hloop as [Hout Hin].
  intros p. split.
  - intros Hnot. rewrite (Hout p Hnot). apply lookup_empty.
  - intros Hp. repeat split; intros Heq; apply (Hin p _ Hp);
      try (left; apply lookup_empty); unfold settled; auto.
Qed.

Lemma one_sided_changes_win_witness :
  exists baseTree srcTree destTree order mergedTree contentsHash t0 t3 t5,
    trace_of clean_run
    = t0 ++ [Ent (ListDirectorySnapshotContents (Some (hash_of "src")) (Some dir_file))
               (srcTree, None);
             Ent (ListDirectorySnapshotContents (Some (hash_of "dest")) (Some dir_file))
               (destTree, None)]
         ++ t3 ++ [Ent (mapRange (dom srcTree ∪ dom destTree)) order] ++ t5
         ++ [Ent (store_tree mergedTree) (contentsHash, None);
             Ent (store_file {| Mode := Mode dir_file; Contents := contentsHash;
                                Parents := [Some (hash_of "src"); Some (hash_of "dest")] |})
               (Some (hash_of "merged"), None)]
    /\ (baseTree = ∅ /\ t3 = []
        \/ exists baseFile,
             t3 = [Ent (ListDirectorySnapshotContents (Some (hash_of "base")) baseFile)
                     (baseTree, None)])
    /\ forall p,
         (p ∉ order -> mergedTree !! p = None)
         /\ (p ∈ order ->
             (srcTree !! p = destTree !! p -> mergedTree !! p = srcTree !! p)
             /\ (srcTree !! p = baseTree !! p -> mergedTree !! p = destTree !! p)
             /\ (destTree !! p = baseTree !! p -> mergedTree !! p = srcTree !! p)).
Proof.
  unfold clean_run, trace_of.
  destruct (run (fixed (clean_answers sorted_order))
              (mergeWithBase 1 "/t/d" (Some (hash_of "base")) (Some (hash_of "src"))
                 (Some (hash_of "dest")) false) tt) as [[r u] tr] eqn:E.
  assert (Hr : r = Done (Some (hash_of "merged"), None))
    by (vm_compute in E; injection E as <- _ _; reflexivity).
  subst r. destruct u. cbn [snd].
  apply (one_sided_changes_win _ tt tt 1 "/t/d" (Some (hash_of "base"))
           (Some (hash_of "src")) (Some (hash_of "dest")) false (Some (hash_of "merged"))
           tr dir_file dir_file [(Some dir_file, None)] E).
  - vm_compute in E. injection E as <-. reflexivity.
  - reflexivity.
  - reflexivity.
Defined.

End MergeMore.

(** ** More about package publish *)

Module PublishMore.
Import Publish PublishCalls.

(** Makes the next call of the program in the hypothesis [H]. *)
Ltac next_call H h :=
  rewrite run_bind, run_call in H;
  match type of H with
  | context [h ?X ?e ?w] => destruct (h X e w) as [? ?]
  end;
  cbn [fst snd] in H.

(** X15 (what Sign records).
    In every run of [Sign]: when it returns without an error, an identity
    and a hash were given, the run is the life of one helper process,
    named after the namespace of the identity and started with the
    arguments of [signArgs], whose output was parsed, and the parsed hash
    is what was written to the identity index, as the last call, and what
    is returned.  When it returns an error it returns no hash, and the
    identity index has not been written with success. *)
Theorem Sign_records_what_it_returns {W : Type} (h : Handler Event W) (w w' : W)
    (id : option Identity) (hh prevSignature hres : option Hash) (err : option error)
    (tr : list (Entry Event)) :
  run h (Sign id hh prevSignature) w = ((hres, err), w', tr) ->
  match err with
  | None =>
      exists i x out,
        id = Some i /\ hh = Some x
        /\ tr = (let c := Command ("rvcs-sign-" +:+ Algorithm i) (signArgs i x prevSignature) in
                 [Ent (StdoutPipe c) None; Ent (Start c) None; Ent (ReadAll c) (out, None);
                  Ent (ParseHash out) (hres, None);
                  Ent (UpdateSignatureForIdentity i hres) None])
  | Some _ => hres = None /\ answers updated tr = []
  end.
Proof.
  intros Hrun. unfold Sign in Hrun.
  destruct id as [i|]; [| cbn in Hrun; injection Hrun as <- <- _ <-; auto].
  destruct hh as [x|]; [| cbn in Hrun; injection Hrun as <- <- _ <-; auto].
  cbv zeta in Hrun. next_call Hrun h.
  destruct o as [e|]; cbn [notNil isNil negb run] in Hrun;
    [injection Hrun as <- <- _ <-; auto |].
  next_call Hrun h.
  destruct o as [e|]; cbn [notNil isNil negb run] in Hrun;
    [injection Hrun as <- <- _ <-; auto |].
  next_call Hrun h. destruct p as [out e3].
  destruct e3 as [e|]; cbn [notNil isNil negb run] in Hrun;
    [injection Hrun as <- <- _ <-; auto |].
  next_call Hrun h. destruct p as [parsed e4].
  destruct e4 as [e|]; cbn [notNil isNil negb run] in Hrun;
    [injection Hrun as <- <- _ <-; auto |].
  next_call Hrun h.
  destruct o as [e|]; cbn [notNil isNil negb run] in Hrun;
    injection Hrun as <- <- _ <-; [auto |].
  exists i, x, out. auto.
Qed.

Lemma Sign_records_what_it_returns_witness :
  exists i x out,
    Some example_user = Some i /\ Some snap1 = Some x
    /\ trace_of (run (helpers 1) (Sign (Some example_user) (Some snap1) (Some sig0)) tt)
       = (let c := Command ("rvcs-sign-" +:+ Algorithm i) (signArgs i x (Some sig0)) in
          [Ent (StdoutPipe c) None; Ent (Start c) None; Ent (ReadAll c) (out, None);
           Ent (ParseHash out) (Some sig1, None);
           Ent (UpdateSignatureForIdentity i (Some sig1)) None]).
Proof.
  unfold trace_of.
  destruct (run (helpers 1) (Sign (Some example_user) (Some snap1) (Some sig0)) tt)
    as [[[hres err] u] tr] eqn:E.
  assert (Hr : hres = Some sig1 /\ err = None)
    by (vm_compute in E; injection E as <- <- _ _; auto).
  destruct Hr as [-> ->]. cbn [snd].
  exact (Sign_records_what_it_returns (helpers 1) tt u (Some example_user) (Some snap1)
           (Some sig0) (Some sig1) None tr E).
Defined.

(** X16 (the pull helper).
    In every run of [pullFrom]: without a mirror, or with a mirror that
    has no URL, the previous hash is returned and nothing is called.
    Otherwise, when it returns without an error, the run is the life of
    one helper process, named after the scheme of the URL and started with
    the flags of the mirror, the identity in full and, when there is one,
    the previous hash, and the hash returned is its parsed output; when it
    returns an error it returns no hash and a step of the helper failed. *)
Theorem pullFrom_runs_the_scheme_helper {W : Type} (h : Handler Event W) (w w' : W)
    (m : option Mirror) (id : Identity) (prev hres : option Hash) (err : option error)
    (tr : list (Entry Event)) :
  run h (pullFrom m id prev) w = ((hres, err), w', tr) ->
  match m ≫= (fun mirror => (fun url => (mirror, url)) <$> Mirror_URL mirror) with
  | None => hres = prev /\ err = None /\ w' = w /\ tr = []
  | Some (mirror, url) =>
      match err with
      | None =>
          exists out,
            tr = (let c := Command ("rvcs-pull-" +:+ Scheme url)
                             (HelperFlags mirror ++ [Identity_String id]
                                ++ match prev with
                                   | Some _ => [Hash_String prev]
                                   | None => []
                                   end) in
                  [Ent (StdoutPipe c) None; Ent (Start c) None; Ent (ReadAll c) (out, None);
                   Ent (ParseHash out) (hres, None)])
      | Some _ => hres = None /\ existsb failed_step tr = true
      end
  end.
Proof.
  intros Hrun. unfold pullFrom in Hrun.
  destruct m as [[[url|] flags]|]; cbn [mbind option_bind fmap option_fmap option_map
                                         Mirror_URL HelperFlags] in *;
    [| cbn in Hrun; injection Hrun as <- <- <- <-; auto
     | cbn in Hrun; injection Hrun as <- <- <- <-; auto].
  cbv zeta in Hrun.
  assert (Hargs : (if notNil prev then (flags ++ [Identity_String id]) ++ [Hash_String prev]
                   else flags ++ [Identity_String id])
                  = flags ++ [Identity_String id]
                      ++ match prev with Some _ => [Hash_String prev] | None => [] end).
  { destruct prev; cbn [notNil isNil negb];
      [rewrite <- app_assoc | rewrite app_nil_r]; reflexivity. }
  rewrite Hargs in Hrun. clear Hargs.
  next_call Hrun h.
  destruct o as [e|]; cbn [notNil isNil negb run] in Hrun;
    [injection Hrun as <- <- _ <-; auto |].
  next_call Hrun h.
  destruct o as [e|]; cbn [notNil isNil negb run] in Hrun;
    [injection Hrun as <- <- _ <-; auto |].
  next_call Hrun h. destruct p as [out e3].
  destruct e3 as [e|]; cbn [notNil isNil negb run] in Hrun;
    [injection Hrun as <- <- _ <-; auto |].
  next_call Hrun h. destruct p as [parsed e4].
  destruct e4 as [e|]; cbn [notNil isNil negb run] in Hrun;
    injection Hrun as <- <- _ <-; [auto |].
  exists out. reflexivity.
Qed.

Lemma pullFrom_runs_the_scheme_helper_witness :
  exists out,
    trace_of (run (helpers 1) (pullFrom (mirror_of "file") example_user (Some sig0)) tt)
    = (let c := Command ("rvcs-pull-" +:+ "file")
                  ([] ++ [Identity_String example_user] ++ [Hash_String (Some sig0)]) in
       [Ent (StdoutPipe c) None; Ent (Start c) None; Ent (ReadAll c) (out, None);
        Ent (ParseHash out) (Some sig1, None)]).
Proof.
  unfold trace_of.
  destruct (run (helpers 1) (pullFrom (mirror_of "file") example_user (Some sig0)) tt)
    as [[[hres err] u] tr] eqn:E.
  assert (Hr : hres = Some sig1 /\ err = None)
    by (vm_compute in E; injection E as <- <- _ _; auto).
  destruct Hr as [-> ->]. cbn [snd].
  exact (pullFrom_runs_the_scheme_helper (helpers 1) tt u (mirror_of "file") example_user
           (Some sig0) (Some sig1) None tr E).
Defined.


Section Mirrors.
Variable Mirror_q : option Mirror -> string.
Context {W : Type} (h : Handler Event W).

(** Going through two lists of mirrors one after the other is going
    through their concatenation. *)
Lemma pullMirrors_app (id : Identity) (first second : list (option Mirror)) :
  forall (w : W) (signature signed : option Hash),
    run h (pullMirrors Mirror_q (first ++ second) id signature signed) w
    = run h (let* (signature, signed, err) :=
               pullMirrors Mirror_q first id signature signed in
             if notNil err then Ret (None, None, err)
             else pullMirrors Mirror_q second id signature signed) w.
Proof.
  induction first as [| mirror rest IH]; intros w signature signed.
  - reflexivity.
  - cbn [app pullMirrors]. rewrite !run_bind.
    destruct (run h (pullFromAndVerify Mirror_q mirror id signature signed) w)
      as [[[[s sd] err] w1] t1].
    destruct err as [e|]; cbn [notNil isNil negb].
    + cbn. rewrite !app_nil_r. reflexivity.
    + rewrite IH. rewrite run_bind.
      destruct (run h (pullMirrors Mirror_q rest id s sd) w1) as [[[[s2 sd2] err2] w2] t2].
      destruct (run h (if notNil err2 then Ret (None, None, err2)
                       else pullMirrors Mirror_q second id s2 sd2) w2) as [[r3 w3] t3].
      rewrite app_assoc. reflexivity.
Qed.

(** The loop over the settings goes through the mirrors of the settings
    that bear the name of the identity, in order. *)
Lemma pullIdentities_selects (id : Identity) (idSettings : list IdentitySetting) :
  forall (w : W) (signature signed : option Hash),
    run h (pullIdentities Mirror_q idSettings id signature signed) w
    = run h (pullMirrors Mirror_q
               (flat_map PullMirrors
                  (List.filter
                     (fun idSetting => bool_decide (Name idSetting = Identity_String id))
                     idSettings))
               id signature signed) w.
Proof.
  induction idSettings as [| idSetting rest IH]; intros w signature signed.
  - reflexivity.
  - cbn [pullIdentities List.filter].
    destruct (bool_decide (Name idSetting = Identity_String id)); [| apply IH].
    cbn [flat_map]. rewrite pullMirrors_app, !run_bind.
    destruct (run h (pullMirrors Mirror_q (PullMirrors idSetting) id signature signed) w)
      as [[[[s sd] err] w1] t1].
    destruct err as [e|]; cbn [notNil isNil negb]; [reflexivity |].
    rewrite IH. reflexivity.
Qed.

(** X17 (the mirrors of an identity).
    [Pull] behaves, call for call, as if the settings held nothing but the
    list [mirrors_for]: the settings of other identities are ignored, the
    mirrors of the settings that bear the name of the identity come first,
    in the order of the settings, and the additional mirrors come last. *)
Theorem Pull_goes_through_the_mirrors_of_the_identity (w : W) (settings : Settings)
    (id : Identity) :
  run h (Pull Mirror_q settings id) w
  = run h (Pull Mirror_q (only_mirrors (mirrors_for settings id)) id) w.
Proof.
  unfold Pull. rewrite !run_bind, !run_call.
  destruct (h _ (LatestSignatureForIdentity id) w) as [[signature e1] w1]. cbn [fst snd].
  destruct e1 as [e|]; cbn [notNil isNil negb]; [reflexivity |].
  rewrite !run_bind, !run_call.
  destruct (h _ (Verify id signature) w1) as [[signed e2] w2]. cbn [fst snd].
  destruct e2 as [e|]; cbn [notNil isNil negb]; [reflexivity |].
  f_equal.
  cbn [only_mirrors Identities AdditionalPullMirrors pullIdentities bind].
  cbn [notNil isNil negb].
  unfold mirrors_for.
  rewrite run_bind, pullIdentities_selects.
  symmetry. rewrite run_bind, pullMirrors_app, run_bind.
  destruct (run h (pullMirrors Mirror_q _ id signature signed) w2)
    as [[[[s sd] err] w3] t3].
  destruct err as [e|]; cbn [notNil isNil negb].
  - cbn. rewrite ?app_nil_r. reflexivity.
  - rewrite run_bind.
    destruct (run h (pullMirrors Mirror_q (AdditionalPullMirrors settings) id s sd) w3)
      as [[[[s4 sd4] err4] w4] t4].
    destruct err4 as [e|]; cbn [notNil isNil negb]; [cbn; rewrite ?app_nil_r; reflexivity |].
    destruct (run h _ w4) as [[r5 w5] t5]. rewrite <- ?app_assoc. reflexivity.
Qed.

End Mirrors.

End PublishMore.

(** ** The command that merges a snapshot into a path *)

Section LiftFacts.
Context {E F : Type -> Type} (inj : forall X : Type, E X -> F X).

Lemma run_lift {W A : Type} (h : Handler F W) (m : Prog E A) (w : W) :
  run h (lift inj m) w =
  let '(a, w', t) := run (fun X e => h X (inj X e)) m w in
  (a, w', map (lift_entry inj) t).
Proof.
  revert w. induction m as [a | X e k IH]; intros w; cbn.
  - reflexivity.
  - destruct (h X (inj X e) w) as [x w1]. rewrite IH.
    destruct (run (fun X e => h X (inj X e)) (k x) w1) as [[a w2] t]. reflexivity.
Qed.

Lemma lifted_quiet (bad : Entry F -> bool) (t : list (Entry E)) :
  (forall en, bad (lift_entry inj en) = false) ->
  existsb bad (map (lift_entry inj) t) = false.
Proof.
  intros Hbad. induction t as [| en t IH]; cbn; [reflexivity |].
  rewrite Hbad, IH. reflexivity.
Qed.

End LiftFacts.

Module MergeCommandFacts.
Import MergeCommand.

Lemma snapshot_changes_no_files (t : list (Entry Snapshot.Event)) :
  existsb changes_files (map (lift_entry (@InSnapshot)) t) = false.
Proof. apply lifted_quiet. intros [X e x]. reflexivity. Qed.





Lemma snapshot_is_no_Base (t : list (Entry Snapshot.Event)) :
  answers answer_Base (map (lift_entry (@InSnapshot)) t) = [].
Proof. induction t as [| [X e x] t IH]; cbn; [reflexivity | exact IH]. Qed.

Lemma merging_is_no_Base (t : list (Entry Merge.Event)) :
  answers answer_Base (map (lift_entry (@InMerge)) t) = [].
Proof. induction t as [| [X e x] t IH]; cbn; [reflexivity | exact IH]. Qed.

Lemma snapshot_is_no_merging (t : list (Entry Snapshot.Event)) :
  existsb merging (map (lift_entry (@InSnapshot)) t) = false.
Proof. apply lifted_quiet. intros [X e x]. reflexivity. Qed.

(** X14 (a source merged before).
    When [Base] answers that the merge base is the source itself, the
    source was merged in before: [Merge] returns without an error and
    without having merged, removed or checked out anything. *)
Theorem merged_source_is_left_alone {W : Type} (filepath_Dir : string -> string)
    (h : Handler Event W) (w w' : W) (fuel : nat) (src : option Hash) (dest : Path)
    (r : Outcome (option error)) (tr : list (Entry Event)) :
  run h (Merge filepath_Dir fuel src dest) w = (r, w', tr) ->
  answers answer_Base tr = [(src, None)] ->
  r = Done None
  /\ existsb changes_files tr = false
  /\ existsb merging tr = false.
Proof.
  intros Hrun Hbase. unfold Merge in Hrun. rewrite run_bind, run_call in Hrun.
  destruct (h _ (MkdirAll (filepath_Dir dest) 448) w) as [e0 w0]. cbn [fst snd] in Hrun.
  destruct e0 as [e0|]; cbn [notNil isNil negb run] in Hrun.
  { injection Hrun as _ _ <-. discriminate Hbase. }
  rewrite run_bind, run_lift in Hrun.
  destruct (run (fun X e => h X (InSnapshot e)) (Snapshot.Current fuel dest) w0)
    as [[current w1] ts].
  pose proof (snapshot_changes_no_files ts) as Hts.
  pose proof (snapshot_is_no_merging ts) as Htm.
  pose proof (snapshot_is_no_Base ts) as Htb.
  destruct current as [[[destPrevHash f] err] |]; cbn [run] in Hrun.
  2:{ injection Hrun as _ _ <-. cbn in Hbase.
      rewrite answers_app, Htb in Hbase. discriminate Hbase. }
  destruct err as [err|]; cbn [notNil isNil negb run] in Hrun.
  { injection Hrun as _ _ <-. cbn in Hbase.
    rewrite answers_app, Htb in Hbase. discriminate Hbase. }
  destruct destPrevHash as [dp|]; cbn [notNil isNil negb] in Hrun.
  2:{ rewrite run_bind, run_call in Hrun.
      destruct (h _ (Checkout src dest) w1) as [answer w2]. cbn in Hrun.
      injection Hrun as _ _ <-. cbn in Hbase.
      rewrite answers_app, Htb in Hbase. discriminate Hbase. }
  rewrite run_bind, run_call in Hrun.
  destruct (h _ (Base src (Some dp)) w1) as [[mergeBase e2] w2]. cbn [fst snd] in Hrun.
  destruct e2 as [e2|]; cbn [notNil isNil negb run] in Hrun.
  { injection Hrun as _ _ <-. cbn in Hbase.
    rewrite answers_app, Htb in Hbase. discriminate Hbase. }
  assert (Hmb : mergeBase = src).
  { destruct (Hash_Equal mergeBase src) eqn:Heq; [apply Hash_Equal_eq; exact Heq |].
    rewrite run_bind in Hrun.
    destruct (run h (lift (@InMerge)
                       (Merge.mergeWithBase fuel dest mergeBase src (Some dp) false)) w2)
      as [[merged w3] tm].
    destruct (run h _ w3) as [[r3 w4] t3] in Hrun.
    injection Hrun as _ _ <-. cbn in Hbase.
    rewrite answers_app, Htb in Hbase. cbn in Hbase.
    injection Hbase as Hmb _. exact Hmb. }
  subst mergeBase. rewrite Hash_Equal_refl in Hrun. cbn [run] in Hrun.
  injection Hrun as <- _ <-. split; [reflexivity |].
  cbn. rewrite ?app_nil_r, !existsb_app, Hts, Htm. auto.
Qed.

Lemma merged_source_is_left_alone_witness :
  result_of (example_run (Some (Merge.hash_of "src"))) = Done None
  /\ existsb changes_files (trace_of (example_run (Some (Merge.hash_of "src")))) = false
  /\ existsb merging (trace_of (example_run (Some (Merge.hash_of "src")))) = false.
Proof.
  unfold example_run, result_of, trace_of.
  destruct (run (example_env (Some (Merge.hash_of "src")))
              (Merge example_Dir 1 (Some (Merge.hash_of "src")) "/t/f") tt)
    as [[r u] tr] eqn:E.
  cbn [fst snd].
  apply (merged_source_is_left_alone example_Dir _ tt u 1 (Some (Merge.hash_of "src")) "/t/f"
           r tr E).
  vm_compute in E. injection E as _ _ <-. reflexivity.
Defined.

End MergeCommandFacts.
